(** * A shallow embedding of the [kml] package (src/kml/kml.go)

    The package builds a tree of heap-allocated nodes (a [KML] document,
    [Folder]s, [Placemark]s, [Point]s, [Style]s) behind Go pointers and
    renders it to KML text.  Pointers are addresses into an explicit heap,
    the [renderable] interface is a dynamic type tag with a pointer, and
    every function of the package is a computation in a small state and
    error monad over that heap. *)

From Stdlib Require Import ZArith NArith Ascii String List Bool Lia.
From Stdlib Require Import SpecFloat.
From stdpp Require Import base option list gmap strings.

Local Open Scope Z_scope.

(** ** The parts of Go's standard library the package calls *)

Module Go.

(** [float64]: IEEE 754 binary64 values, without NaN payloads. *)
Definition float64 : Type := spec_float.

Definition valid64 (x : float64) : bool := valid_binary 53 1024 x.

(** [math.IsNaN(f)] *)
Definition IsNaN (f : float64) : bool :=
  match f with S754_nan => true | _ => false end.

(** [math.IsInf(f, 0)]: either infinity. *)
Definition IsInf (f : float64) : bool :=
  match f with S754_infinity _ => true | _ => false end.

(** The comparison operators [>], [<], [>=], [<=] of Go on [float64]; any
    comparison with a NaN is false. *)
Definition fgt (a b : float64) : bool := SFltb b a.
Definition flt (a b : float64) : bool := SFltb a b.
Definition fge (a b : float64) : bool := SFleb b a.
Definition fle (a b : float64) : bool := SFleb a b.

(** Line feed and double quote, the two characters of the package's string
    literals that are written with an escape. *)
Definition LF : string := String (ascii_of_nat 10) EmptyString.
Definition DQ : string := String (ascii_of_nat 34) EmptyString.

(** Digits of a non-negative integer in base [b], most significant first. *)
Definition digit_char (d : Z) : ascii :=
  ascii_of_nat (Z.to_nat (if d <? 10 then 48 + d else 87 + d)).

Fixpoint digits_aux (fuel : nat) (b n : Z) (acc : string) : string :=
  match fuel with
  | O => acc
  | S k =>
      let acc' := String (digit_char (n mod b)) acc in
      if n / b =? 0 then acc' else digits_aux k b (n / b) acc'
  end.

Definition digits (b n : Z) : string :=
  digits_aux (S (Z.to_nat (Z.log2 n))) b n EmptyString.

(** Left padding with ['0'] up to a width. *)
Fixpoint zeros (k : nat) : string :=
  match k with O => EmptyString | S k' => String "0" (zeros k') end.

Definition zero_pad (width : nat) (s : string) : string :=
  zeros (width - String.length s) +:+ s.

(** The verb [%d] on a signed integer. *)
Definition fmt_d (n : Z) : string :=
  if n <? 0 then "-" +:+ digits 10 (- n) else digits 10 n.

(** The verb [%02x] on an unsigned integer: lowercase hexadecimal, at least
    two digits. *)
Definition fmt_02x (n : Z) : string := zero_pad 2 (digits 16 n).

(** The verb [%f] on a [float64]: the exact value rounded to six decimals,
    ties to even; the sign bit gives the sign, also of a zero. *)
Definition round_scaled (m : positive) (e : Z) : Z :=
  let num := Z.pos m * 1000000 in
  if 0 <=? e then num * 2 ^ e
  else
    let den := 2 ^ (- e) in
    let q := num / den in
    let r := num mod den in
    if (den <? 2 * r) || ((den =? 2 * r) && Z.odd q) then q + 1 else q.

Definition fixed6 (q : Z) : string :=
  digits 10 (q / 1000000) +:+ "." +:+ zero_pad 6 (digits 10 (q mod 1000000)).

Definition sign_str (s : bool) : string := if s then "-" else EmptyString.

Definition fmt_f (x : float64) : string :=
  match x with
  | S754_nan => "NaN"
  | S754_infinity s => if s then "-Inf" else "+Inf"
  | S754_zero s => sign_str s +:+ fixed6 0
  | S754_finite s m e => sign_str s +:+ fixed6 (round_scaled m e)
  end.

(** [strings.TrimSpace]: the string without its leading and trailing white
    space, as Unicode defines it, on the UTF-8 bytes of the string.  A white
    space rune is one of the six ASCII ones or U+0085, U+00A0, U+1680,
    U+2000..U+200A, U+2028, U+2029, U+202F, U+205F, U+3000. *)
Definition space_runes : list (list N) :=
  ([ [9]; [10]; [11]; [12]; [13]; [32];
     [0xC2; 0x85]; [0xC2; 0xA0]; [0xE1; 0x9A; 0x80];
     [0xE2; 0x80; 0x80]; [0xE2; 0x80; 0x81]; [0xE2; 0x80; 0x82];
     [0xE2; 0x80; 0x83]; [0xE2; 0x80; 0x84]; [0xE2; 0x80; 0x85];
     [0xE2; 0x80; 0x86]; [0xE2; 0x80; 0x87]; [0xE2; 0x80; 0x88];
     [0xE2; 0x80; 0x89]; [0xE2; 0x80; 0x8A]; [0xE2; 0x80; 0xA8];
     [0xE2; 0x80; 0xA9]; [0xE2; 0x80; 0xAF]; [0xE2; 0x81; 0x9F];
     [0xE3; 0x80; 0x80] ])%N.

Fixpoint strip_prefix (p bs : list N) : option (list N) :=
  match p, bs with
  | [], _ => Some bs
  | c :: p', b :: bs' => if (c =? b)%N then strip_prefix p' bs' else None
  | _ :: _, [] => None
  end.

Fixpoint strip_any (table : list (list N)) (bs : list N) : option (list N) :=
  match table with
  | [] => None
  | p :: table' =>
      match strip_prefix p bs with
      | Some rest => Some rest
      | None => strip_any table' bs
      end
  end.

Fixpoint trim_left (fuel : nat) (table : list (list N)) (bs : list N) : list N :=
  match fuel with
  | O => bs
  | S k =>
      match strip_any table bs with
      | Some rest => trim_left k table rest
      | None => bs
      end
  end.

Definition bytes_of (s : string) : list N := map N_of_ascii (list_ascii_of_string s).
Definition of_bytes (bs : list N) : string := string_of_list_ascii (map ascii_of_N bs).

Definition TrimSpace (s : string) : string :=
  let front := trim_left (String.length s) space_runes (bytes_of s) in
  let back := trim_left (String.length s) (map (@rev N) space_runes) (rev front) in
  of_bytes (rev back).

End Go.

Import Go.

(** ** Memory: pointers, interface values, objects *)

Definition loc : Type := positive.

(** A Go pointer [*T]: nil, or the address of an object. *)
Inductive pointer : Type :=
  | NilPtr
  | Addr (l : loc).

(** A value of the interface [renderable]: the nil interface, or a dynamic
    type with a pointer of that type.  The four pointer types [*Folder],
    [*Style], [*Point] and [*Placemark] have the method [render]; a nil
    pointer inside an interface value is not the nil interface. *)
Inductive dyntype : Type := TFolder | TStyle | TPoint | TPlacemark.

Inductive renderable : Type :=
  | NilIface
  | Iface (t : dyntype) (p : pointer).

Record KML : Type := { folders : list pointer }.

Record Folder : Type := {
  Folder_name : string;
  Folder_description : string;
  features : list renderable
}.

Record Style : Type := {
  Style_name : string;
  alpha : Z;
  red : Z;
  green : Z;
  blue : Z;
  iconURL : string;
  iconScale : float64;
  fill : Z
}.

Record Point : Type := {
  Lat : float64;
  Lon : float64;
  Alt : float64
}.

Record Placemark : Type := {
  Placemark_name : string;
  Placemark_description : string;
  geometry : renderable;
  style : string
}.

Inductive object : Type :=
  | OKML (k : KML)
  | OFolder (f : Folder)
  | OStyle (s : Style)
  | OPoint (p : Point)
  | OPlacemark (pm : Placemark).

Abbreviation heap := (gmap loc object).

(** ** The monad of the package's functions

    A call runs on a heap and returns a value with the heap it leaves, or
    does not return: [Panic] is Go's run-time panic (here always a nil
    dereference), [Timeout] is the model's fuel running out, and [Wild] is an
    address that holds no object of the pointer's type, which Go's typing
    excludes. *)

Inductive result (A : Type) : Type :=
  | Ok (a : A) (h : heap)
  | Panic
  | Timeout
  | Wild.

Arguments Ok {A} a h.
Arguments Panic {A}.
Arguments Timeout {A}.
Arguments Wild {A}.

Definition M (A : Type) : Type := heap -> result A.

Definition ret {A} (a : A) : M A := fun h => Ok a h.

Definition bind {A B} (m : M A) (k : A -> M B) : M B :=
  fun h =>
    match m h with
    | Ok a h' => k a h'
    | Panic => Panic
    | Timeout => Timeout
    | Wild => Wild
    end.

Notation "x <- m ;; k" := (bind m (fun x => k))
  (at level 100, m at next level, right associativity).

Definition panic {A} : M A := fun _ => Panic.
Definition timeout {A} : M A := fun _ => Timeout.
Definition wild {A} : M A := fun _ => Wild.

(** [&T{...}]: a new object at an address the heap does not use. *)
Definition alloc (o : object) : M pointer :=
  fun h => let l := fresh (dom h) in Ok (Addr l) (<[l := o]> h).

(** Reading through a pointer; nil panics. *)
Definition load (p : pointer) : M object :=
  fun h =>
    match p with
    | NilPtr => Panic
    | Addr l => match h !! l with Some o => Ok o h | None => Wild end
    end.

(** Writing an object's fields through a pointer; nil panics. *)
Definition store (p : pointer) (o : object) : M unit :=
  fun h =>
    match p with
    | NilPtr => Panic
    | Addr l => Ok tt (<[l := o]> h)
    end.

Definition load_KML (p : pointer) : M KML :=
  o <- load p ;; match o with OKML k => ret k | _ => wild end.
Definition load_Folder (p : pointer) : M Folder :=
  o <- load p ;; match o with OFolder f => ret f | _ => wild end.
Definition load_Style (p : pointer) : M Style :=
  o <- load p ;; match o with OStyle s => ret s | _ => wild end.
Definition load_Point (p : pointer) : M Point :=
  o <- load p ;; match o with OPoint q => ret q | _ => wild end.
Definition load_Placemark (p : pointer) : M Placemark :=
  o <- load p ;; match o with OPlacemark pm => ret pm | _ => wild end.

(** [for _, x := range l { acc = f(acc, x) }] *)
Fixpoint foldM {A B} (f : B -> A -> M B) (l : list A) (b : B) : M B :=
  match l with
  | [] => ret b
  | a :: l' => b' <- f b a ;; foldM f l' b'
  end.

Definition ptr_is_nil (p : pointer) : bool :=
  match p with NilPtr => true | Addr _ => false end.

Definition iface_is_nil (r : renderable) : bool :=
  match r with NilIface => true | Iface _ _ => false end.

(** The floating-point constants of the source. *)
Definition F0 : float64 := S754_zero false.                            (* 0.0 *)
Definition F1_1 : float64 := S754_finite false 4953959590107546 (-52). (* 1.1 *)
Definition F90 : float64 := S754_finite false 6333186975989760 (-46).  (* 90.0 *)
Definition F100 : float64 := S754_finite false 7036874417766400 (-46). (* 100.0 *)
Definition F180 : float64 := S754_finite false 6333186975989760 (-45). (* 180.0 *)
Definition neg (x : float64) : float64 := SFopp x.

(** ** KML *)

Definition NewKML : M pointer := alloc (OKML {| folders := [] |}).

Definition KML_AddFolder (k folder : pointer) : M unit :=
  if negb (ptr_is_nil folder) then
    K <- load_KML k ;;
    store k (OKML {| folders := folders K ++ [folder] |})
  else ret tt.

(** ** Folder *)

Definition NewFolder (name desc : string) : M pointer :=
  alloc (OFolder {| Folder_name := name; Folder_description := desc; features := [] |}).

Definition Folder_AddFeature (f : pointer) (feature : renderable) : M unit :=
  if negb (iface_is_nil feature) then
    F <- load_Folder f ;;
    store f (OFolder {| Folder_name := Folder_name F;
                        Folder_description := Folder_description F;
                        features := features F ++ [feature] |})
  else ret tt.

(** [render] calls [render] on the features through the interface: the
    dispatch is the parameter [render], tied below. *)
Definition Folder_render (render : renderable -> M string) (f : pointer) : M string :=
  F <- load_Folder f ;;
  let r := "<Folder>" +:+ LF +:+
           "<name>" +:+ Folder_name F +:+ "</name>" +:+ LF +:+
           "<description>" +:+ Folder_description F +:+ "</description>" +:+ LF in
  r <- foldM (fun acc feature => s <- render feature ;; ret (acc +:+ s)) (features F) r ;;
  ret (r +:+ "</Folder>" +:+ LF).

Definition KML_Render (render : renderable -> M string) (k : pointer) : M string :=
  K <- load_KML k ;;
  let r := "<?xml version=" +:+ DQ +:+ "1.0" +:+ DQ +:+ " encoding=" +:+ DQ +:+ "UTF-8" +:+ DQ +:+ "?>" +:+ LF +:+
           "<kml xmlns=" +:+ DQ +:+ "http://www.opengis.net/kml/2.2" +:+ DQ +:+ ">" +:+ LF in
  r <- foldM (fun acc folder => s <- Folder_render render folder ;; ret (acc +:+ s)) (folders K) r ;;
  ret (r +:+ "</kml>" +:+ LF).

(** ** Style *)

Definition NewStyle (name : string) (alpha red green blue : Z) : M pointer :=
  alloc (OStyle {| Style_name := name; alpha := alpha; red := red;
                   green := green; blue := blue;
                   iconURL := "http://maps.google.com/mapfiles/kml/pushpin/ylw-pushpin.png";
                   iconScale := F1_1; fill := 1 |}).

Definition Style_SetIconURL (s : pointer) (url : string) : M unit :=
  let url := TrimSpace url in
  if (0 <? String.length url)%nat then
    S <- load_Style s ;;
    store s (OStyle {| Style_name := Style_name S; alpha := alpha S; red := red S;
                       green := green S; blue := blue S;
                       iconURL := url;
                       iconScale := iconScale S; fill := fill S |})
  else ret tt.

Definition Style_SetIconScale (s : pointer) (scale : float64) : M unit :=
  if fge scale F0 && fle scale F100 then
    S <- load_Style s ;;
    store s (OStyle {| Style_name := Style_name S; alpha := alpha S; red := red S;
                       green := green S; blue := blue S;
                       iconURL := iconURL S;
                       iconScale := scale; fill := fill S |})
  else ret tt.

Definition Style_SetPolygonFill (s : pointer) (b : bool) : M unit :=
  S <- load_Style s ;;
  store s (OStyle {| Style_name := Style_name S; alpha := alpha S; red := red S;
                     green := green S; blue := blue S;
                     iconURL := iconURL S; iconScale := iconScale S;
                     fill := if b then 1 else 0 |}).

Definition Style_render (s : pointer) : M string :=
  S <- load_Style s ;;
  let colorStr := "<color>" +:+ fmt_02x (alpha S) +:+ fmt_02x (blue S) +:+
                  fmt_02x (green S) +:+ fmt_02x (red S) +:+ "</color>" +:+ LF in
  ret ("<Style id=" +:+ DQ +:+ Style_name S +:+ DQ +:+ ">" +:+ LF +:+
       "<IconStyle>" +:+ LF +:+
       colorStr +:+
       "<scale>" +:+ fmt_f (iconScale S) +:+ "</scale>" +:+ LF +:+
       "<Icon><href>" +:+ iconURL S +:+ "</href></Icon>" +:+ LF +:+
       "</IconStyle>" +:+ LF +:+
       "<LineStyle>" +:+ LF +:+
       colorStr +:+
       "<width>3</width>" +:+ LF +:+
       "</LineStyle>" +:+ LF +:+
       "<PolyStyle>" +:+ LF +:+
       colorStr +:+
       "<colorMode>normal</colorMode>" +:+ LF +:+
       "<fill>" +:+ fmt_d (fill S) +:+ "</fill>" +:+ LF +:+
       "<outline>1</outline>" +:+ LF +:+
       "</PolyStyle>" +:+ LF +:+
       "</Style>" +:+ LF).

(** ** Point *)

(** The result is the pair of a [*Point] and an error: an error is the
    message given to [errors.New], and [None] is the nil error. *)
Definition NewPoint (lat lon alt : float64) : M (pointer * option string) :=
  if IsNaN lat || IsInf lat then
    ret (NilPtr, Some "Lat is NaN or Inf.")
  else if fgt lat F90 || flt lat (neg F90) then
    ret (NilPtr, Some ("Invalid Lat: " +:+ fmt_f lat))
  else if IsNaN lon || IsInf lon then
    ret (NilPtr, Some "Lon is NaN or Inf.")
  else if fgt lon F180 || flt lon (neg F180) then
    ret (NilPtr, Some ("Invalid Lon: " +:+ fmt_f lon))
  else
    let alt := if IsNaN alt || IsInf alt then F0 else alt in
    p <- alloc (OPoint {| Lat := lat; Lon := lon; Alt := alt |}) ;;
    ret (p, None).

Definition Point_render (p : pointer) : M string :=
  P <- load_Point p ;;
  ret ("<Point>" +:+ LF +:+
       "<extrude>0</extrude>" +:+ LF +:+
       "<altitudeMode>clampToGround</altitudeMode>" +:+ LF +:+
       "<coordinates>" +:+ fmt_f (Lon P) +:+ "," +:+ fmt_f (Lat P) +:+ "," +:+
         fmt_f (Alt P) +:+ "</coordinates>" +:+ LF +:+
       "</Point>" +:+ LF).

(** ** Placemark *)

Definition NewPlacemark (name desc : string) (geom : renderable) : M pointer :=
  alloc (OPlacemark {| Placemark_name := name; Placemark_description := desc;
                       geometry := geom; style := EmptyString |}).

Definition Placemark_SetStyle (pm : pointer) (name : string) : M unit :=
  let name := TrimSpace name in
  if (0 <? String.length name)%nat then
    PM <- load_Placemark pm ;;
    store pm (OPlacemark {| Placemark_name := Placemark_name PM;
                            Placemark_description := Placemark_description PM;
                            geometry := geometry PM; style := name |})
  else ret tt.

Definition Placemark_render (render : renderable -> M string) (pm : pointer) : M string :=
  PM <- load_Placemark pm ;;
  let r := "<Placemark>" +:+ LF +:+
           "<name>" +:+ Placemark_name PM +:+ "</name>" +:+ LF +:+
           "<description>" +:+ Placemark_description PM +:+ "</description>" +:+ LF +:+
           "<visibility>1</visibility>" +:+ LF in
  let r := if (0 <? String.length (style PM))%nat
           then r +:+ "<styleUrl>#" +:+ style PM +:+ "</styleUrl>" +:+ LF
           else r in
  g <- render (geometry PM) ;;
  ret (r +:+ g +:+ "</Placemark>" +:+ LF).

(** ** The method call [x.render()] on an interface value

    A call on the nil interface panics; otherwise the dynamic type selects
    the method.  The object graph may be cyclic (a folder added to itself),
    where the Go call never returns: the depth of nested calls is bounded by
    [fuel]. *)
Fixpoint render (fuel : nat) (r : renderable) : M string :=
  match r with
  | NilIface => panic
  | Iface t p =>
      match fuel with
      | O => timeout
      | S n =>
          match t with
          | TFolder => Folder_render (render n) p
          | TStyle => Style_render p
          | TPoint => Point_render p
          | TPlacemark => Placemark_render (render n) p
          end
      end
  end.

(** [k.Render()] with nested calls up to depth [fuel]. *)
Definition Render (fuel : nat) (k : pointer) : M string := KML_Render (render fuel) k.

(** Running a program on the empty heap. *)
Definition run {A} (m : M A) : result A := m ∅.

(** ** Vocabulary of the properties *)

(** Neither a NaN nor an infinity. *)
Definition finite (x : float64) : bool := negb (IsNaN x || IsInf x).

(** [x] lies in the closed interval from [lo] to [hi]. *)
Definition in_range (lo hi x : float64) : bool := SFleb lo x && SFleb x hi.

Definition valid_lat (lat : float64) : bool := finite lat && in_range (neg F90) F90 lat.
Definition valid_lon (lon : float64) : bool := finite lon && in_range (neg F180) F180 lon.

(** The test values of the specification. *)
Definition F91 : float64 := S754_finite false 6403555720167424 (-46).   (* 91.0 *)
Definition F181 : float64 := S754_finite false 6368371348078592 (-45).  (* 181.0 *)
Definition F0_1 : float64 := S754_finite false 7205759403792794 (-56).  (* 0.1 *)
Definition F100_1 : float64 := S754_finite false 7043911292184166 (-46). (* 100.1 *)
Definition FNaN : float64 := S754_nan.
Definition FInf : float64 := S754_infinity false.

Definition bad_lats : list float64 := [F91; neg F91; FNaN; FInf].
Definition bad_lons : list float64 := [F181; neg F181; FNaN; FInf].

(** The two kinds of error of [NewPoint], told apart by their message. *)
Definition is_lat_error (msg : string) : bool :=
  String.prefix "Lat is NaN or Inf." msg || String.prefix "Invalid Lat: " msg.
Definition is_lon_error (msg : string) : bool :=
  String.prefix "Lon is NaN or Inf." msg || String.prefix "Invalid Lon: " msg.

(** [sub] occurs in [s]. *)
Fixpoint occurs (sub s : string) : bool :=
  String.prefix sub s ||
  match s with
  | EmptyString => false
  | String _ s' => occurs sub s'
  end.

(** A lowercase hexadecimal digit. *)
Definition is_lower_hex (c : ascii) : bool :=
  let n := N_of_ascii c in
  ((48 <=? n) && (n <=? 57) || (97 <=? n) && (n <=? 102))%N.

Definition uint8 (n : Z) : Prop := 0 <= n < 256.

(** The eight digits of the colour of a Style: alpha, blue, green, red. *)
Definition color_digits (S : Style) : string :=
  fmt_02x (alpha S) +:+ fmt_02x (blue S) +:+ fmt_02x (green S) +:+ fmt_02x (red S).

(** A name that [TrimSpace] leaves empty. *)
Definition blank (name : string) : bool :=
  match TrimSpace name with EmptyString => true | String _ _ => false end.

(** The calls [pm.SetStyle(n)] for the names of a list, in order. *)
Fixpoint SetStyles (pm : pointer) (names : list string) : M unit :=
  match names with
  | [] => ret tt
  | n :: names' => _ <- Placemark_SetStyle pm n ;; SetStyles pm names'
  end.

(** The style name a Placemark holds after these calls, from [init]: the
    trimmed name of the last call whose name is not blank. *)
Definition last_style (names : list string) (init : string) : string :=
  fold_left (fun cur n => if blank n then cur else TrimSpace n) names init.

(** The style-URL line of a Placemark: absent for the empty style name. *)
Definition styleUrl_line (st : string) : string :=
  match st with
  | EmptyString => EmptyString
  | String _ _ => "<styleUrl>#" +:+ st +:+ "</styleUrl>" +:+ LF
  end.

(** [tree h d r]: from [r] the heap holds a tree of objects of the right
    types, without nil, of depth at most [d]. *)
#[warnings="-register-all"] Inductive tree (h : heap) : nat -> renderable -> Prop :=
  | tree_Style d l S :
      h !! l = Some (OStyle S) -> tree h (Datatypes.S d) (Iface TStyle (Addr l))
  | tree_Point d l P :
      h !! l = Some (OPoint P) -> tree h (Datatypes.S d) (Iface TPoint (Addr l))
  | tree_Placemark d l PM :
      h !! l = Some (OPlacemark PM) -> tree h d (geometry PM) ->
      tree h (Datatypes.S d) (Iface TPlacemark (Addr l))
  | tree_Folder d l F :
      h !! l = Some (OFolder F) -> Forall (tree h d) (features F) ->
      tree h (Datatypes.S d) (Iface TFolder (Addr l)).

(** An example: a Document with one Folder that holds one Placemark on the
    Point of latitude 10 and longitude 20, as the calls [NewKML], [NewFolder],
    [NewPoint], [NewPlacemark], [AddFeature], [AddFolder] build it. *)
Definition F10 : float64 := S754_finite false 5629499534213120 (-49).   (* 10.0 *)
Definition F20 : float64 := S754_finite false 5629499534213120 (-48).   (* 20.0 *)

Definition example_program : M pointer :=
  k <- NewKML ;;
  f <- NewFolder "Places" "All places" ;;
  r <- NewPoint F10 F20 F0 ;;
  pm <- NewPlacemark "Home" "Where we live" (Iface TPoint (fst r)) ;;
  _ <- Folder_AddFeature f (Iface TPlacemark pm) ;;
  _ <- KML_AddFolder k f ;;
  ret k.

Definition example_heap : heap :=
  <[1%positive := OKML {| folders := [Addr 2%positive] |}]>
  (<[2%positive := OFolder {| Folder_name := "Places"; Folder_description := "All places";
                              features := [Iface TPlacemark (Addr 4%positive)] |}]>
  (<[3%positive := OPoint {| Lat := F10; Lon := F20; Alt := F0 |}]>
  (<[4%positive := OPlacemark {| Placemark_name := "Home";
                                 Placemark_description := "Where we live";
                                 geometry := Iface TPoint (Addr 3%positive);
                                 style := EmptyString |}]> ∅))).

Definition example_text : string :=
  "<?xml version=" +:+ DQ +:+ "1.0" +:+ DQ +:+ " encoding=" +:+ DQ +:+ "UTF-8" +:+ DQ +:+ "?>" +:+ LF +:+
  "<kml xmlns=" +:+ DQ +:+ "http://www.opengis.net/kml/2.2" +:+ DQ +:+ ">" +:+ LF +:+
  "<Folder>" +:+ LF +:+
  "<name>Places</name>" +:+ LF +:+
  "<description>All places</description>" +:+ LF +:+
  "<Placemark>" +:+ LF +:+
  "<name>Home</name>" +:+ LF +:+
  "<description>Where we live</description>" +:+ LF +:+
  "<visibility>1</visibility>" +:+ LF +:+
  "<Point>" +:+ LF +:+
  "<extrude>0</extrude>" +:+ LF +:+
  "<altitudeMode>clampToGround</altitudeMode>" +:+ LF +:+
  "<coordinates>20.000000,10.000000,0.000000</coordinates>" +:+ LF +:+
  "</Point>" +:+ LF +:+
  "</Placemark>" +:+ LF +:+
  "</Folder>" +:+ LF +:+
  "</kml>" +:+ LF.

(** The calls [k.AddFolder(f)] for the folders of a list, in order, and the
    calls [f.AddFeature(x)] for the features of a list. *)
Fixpoint AddFolders (k : pointer) (fs : list pointer) : M unit :=
  match fs with
  | [] => ret tt
  | f :: fs' => _ <- KML_AddFolder k f ;; AddFolders k fs'
  end.

Fixpoint AddFeatures (f : pointer) (xs : list renderable) : M unit :=
  match xs with
  | [] => ret tt
  | x :: xs' => _ <- Folder_AddFeature f x ;; AddFeatures f xs'
  end.

(** A call of one of the three setters of a Style, and a list of calls. *)
Inductive style_call : Type :=
  | CallSetIconURL (url : string)
  | CallSetIconScale (scale : float64)
  | CallSetPolygonFill (b : bool).

Definition do_style_call (s : pointer) (c : style_call) : M unit :=
  match c with
  | CallSetIconURL url => Style_SetIconURL s url
  | CallSetIconScale scale => Style_SetIconScale s scale
  | CallSetPolygonFill b => Style_SetPolygonFill s b
  end.

Fixpoint do_style_calls (s : pointer) (cs : list style_call) : M unit :=
  match cs with
  | [] => ret tt
  | c :: cs' => _ <- do_style_call s c ;; do_style_calls s cs'
  end.

(** What the setters keep true of a Style. *)
Definition Style_inv (S : Style) : Prop :=
  in_range F0 F100 (iconScale S) = true /\
  iconURL S <> EmptyString /\
  (fill S = 0 \/ fill S = 1).

(** Texts put one after the other. *)
Fixpoint concat_str (l : list string) : string :=
  match l with
  | [] => EmptyString
  | s :: l' => s +:+ concat_str l'
  end.

(** The fixed first lines of a Document and of a Folder. *)
Definition kml_header : string :=
  "<?xml version=" +:+ DQ +:+ "1.0" +:+ DQ +:+ " encoding=" +:+ DQ +:+ "UTF-8" +:+ DQ +:+ "?>" +:+ LF +:+
  "<kml xmlns=" +:+ DQ +:+ "http://www.opengis.net/kml/2.2" +:+ DQ +:+ ">" +:+ LF.

Definition folder_header (name desc : string) : string :=
  "<Folder>" +:+ LF +:+
  "<name>" +:+ name +:+ "</name>" +:+ LF +:+
  "<description>" +:+ desc +:+ "</description>" +:+ LF.

Definition not_nil_ptr (p : pointer) : bool := negb (ptr_is_nil p).
Definition not_nil_iface (r : renderable) : bool := negb (iface_is_nil r).

(** What a list of setter calls leaves in the three fields they write,
    from the value the field had: each field follows the calls of its own
    setter only. *)
Definition final_url (cs : list style_call) (init : string) : string :=
  fold_left (fun cur c => match c with
                          | CallSetIconURL u => if blank u then cur else TrimSpace u
                          | _ => cur
                          end) cs init.

Definition final_scale (cs : list style_call) (init : float64) : float64 :=
  fold_left (fun cur c => match c with
                          | CallSetIconScale x => if in_range F0 F100 x then x else cur
                          | _ => cur
                          end) cs init.

Definition final_fill (cs : list style_call) (init : Z) : Z :=
  fold_left (fun cur c => match c with
                          | CallSetPolygonFill b => if b then 1 else 0
                          | _ => cur
                          end) cs init.

Definition default_iconURL : string :=
  "http://maps.google.com/mapfiles/kml/pushpin/ylw-pushpin.png".

(** The text of a Style up to its fill flag, and after it. *)
Definition Style_before_fill (S : Style) : string :=
  "<Style id=" +:+ DQ +:+ Style_name S +:+ DQ +:+ ">" +:+ LF +:+
  "<IconStyle>" +:+ LF +:+
  "<color>" +:+ color_digits S +:+ "</color>" +:+ LF +:+
  "<scale>" +:+ fmt_f (iconScale S) +:+ "</scale>" +:+ LF +:+
  "<Icon><href>" +:+ iconURL S +:+ "</href></Icon>" +:+ LF +:+
  "</IconStyle>" +:+ LF +:+
  "<LineStyle>" +:+ LF +:+
  "<color>" +:+ color_digits S +:+ "</color>" +:+ LF +:+
  "<width>3</width>" +:+ LF +:+
  "</LineStyle>" +:+ LF +:+
  "<PolyStyle>" +:+ LF +:+
  "<color>" +:+ color_digits S +:+ "</color>" +:+ LF +:+
  "<colorMode>normal</colorMode>" +:+ LF +:+
  "<fill>".

Definition Style_after_fill : string :=
  "</fill>" +:+ LF +:+ "<outline>1</outline>" +:+ LF +:+
  "</PolyStyle>" +:+ LF +:+ "</Style>" +:+ LF.

(** A caller that builds a Document with one Folder holding one Placemark on
    a Point, dropping the error of [NewPoint], and renders it. *)
Definition document_with_point (fname fdesc pname pdesc : string)
    (lat lon alt : float64) (fuel : nat) : M string :=
  k <- NewKML ;;
  f <- NewFolder fname fdesc ;;
  r <- NewPoint lat lon alt ;;
  pm <- NewPlacemark pname pdesc (Iface TPoint (fst r)) ;;
  _ <- Folder_AddFeature f (Iface TPlacemark pm) ;;
  _ <- KML_AddFolder k f ;;
  Render fuel k.

Definition document_with_point_text (fname fdesc pname pdesc : string)
    (lat lon alt : float64) : string :=
  kml_header +:+
  folder_header fname fdesc +:+
  "<Placemark>" +:+ LF +:+
  "<name>" +:+ pname +:+ "</name>" +:+ LF +:+
  "<description>" +:+ pdesc +:+ "</description>" +:+ LF +:+
  "<visibility>1</visibility>" +:+ LF +:+
  "<Point>" +:+ LF +:+
  "<extrude>0</extrude>" +:+ LF +:+
  "<altitudeMode>clampToGround</altitudeMode>" +:+ LF +:+
  "<coordinates>" +:+ fmt_f lon +:+ "," +:+ fmt_f lat +:+ "," +:+
    fmt_f (if finite alt then alt else F0) +:+ "</coordinates>" +:+ LF +:+
  "</Point>" +:+ LF +:+
  "</Placemark>" +:+ LF +:+
  "</Folder>" +:+ LF +:+
  "</kml>" +:+ LF.

(** ** The library functions on examples *)

Example constants_are_binary64 :
  forallb valid64 [F0; F1_1; F90; F100; F180; F91; F181; F0_1; F100_1; F10; F20; FNaN; FInf]
  = true.
Proof. reflexivity. Qed.

Example fmt_f_examples :
  map fmt_f [F0; F1_1; F90; neg F180; F100_1; neg F0_1; neg F0; FNaN; FInf; neg FInf] =
  ["0.000000"; "1.100000"; "90.000000"; "-180.000000"; "100.100000"; "-0.100000";
   "-0.000000"; "NaN"; "+Inf"; "-Inf"].
Proof. reflexivity. Qed.

(** 1/128 = 0.0078125 lies half way between two six-decimal numbers and
    goes to the even one; the smallest positive [float64] prints as zero. *)
Example fmt_f_rounding :
  fmt_f (S754_finite false 4503599627370496 (-59)) = "0.007812" /\
  fmt_f (S754_finite false 6755399441055744 (-59)) = "0.011719" /\
  fmt_f (S754_finite false 1 (-1074)) = "0.000000".
Proof. repeat split; reflexivity. Qed.

Example fmt_int_examples :
  map fmt_02x [0; 9; 10; 15; 16; 255] = ["00"; "09"; "0a"; "0f"; "10"; "ff"] /\
  map fmt_d [0; 1; 10; 127; -128] = ["0"; "1"; "10"; "127"; "-128"].
Proof. split; reflexivity. Qed.

Example TrimSpace_examples :
  TrimSpace "  red  " = "red" /\
  TrimSpace (LF +:+ " two words " +:+ LF) = "two words" /\
  TrimSpace "   " = EmptyString /\
  TrimSpace EmptyString = EmptyString /\
  TrimSpace (of_bytes [0xC2; 0xA0; 0x61; 0xE3; 0x80; 0x80; 0x20])%N = "a".
Proof. repeat split; reflexivity. Qed.

(** ** The monad: equations for running a program *)

Lemma bind_ok {A B} (m : M A) (k : A -> M B) h a h' :
  m h = Ok a h' -> bind m k h = k a h'.
Proof. intros E. unfold bind. now rewrite E. Qed.

Lemma bind_inv {A B} (m : M A) (k : A -> M B) h b h2 :
  bind m k h = Ok b h2 -> exists a h1, m h = Ok a h1 /\ k a h1 = Ok b h2.
Proof.
  unfold bind. destruct (m h) as [a h1| | |]; try discriminate.
  intros E. now exists a, h1.
Qed.

Lemma load_at h l o : h !! l = Some o -> load (Addr l) h = Ok o h.
Proof. intros E. unfold load. now rewrite E. Qed.

Lemma load_inv p h o h' :
  load p h = Ok o h' -> exists l, p = Addr l /\ h !! l = Some o /\ h' = h.
Proof.
  unfold load. destruct p as [|l]; [discriminate|].
  destruct (h !! l) as [o'|] eqn:E; [|discriminate].
  intros [= <- <-]. now exists l.
Qed.

Lemma load_KML_at h l K : h !! l = Some (OKML K) -> load_KML (Addr l) h = Ok K h.
Proof. intros E. unfold load_KML. now rewrite (bind_ok _ _ _ _ _ (load_at _ _ _ E)). Qed.

Lemma load_Folder_at h l F : h !! l = Some (OFolder F) -> load_Folder (Addr l) h = Ok F h.
Proof. intros E. unfold load_Folder. now rewrite (bind_ok _ _ _ _ _ (load_at _ _ _ E)). Qed.

Lemma load_Style_at h l S : h !! l = Some (OStyle S) -> load_Style (Addr l) h = Ok S h.
Proof. intros E. unfold load_Style. now rewrite (bind_ok _ _ _ _ _ (load_at _ _ _ E)). Qed.

Lemma load_Point_at h l P : h !! l = Some (OPoint P) -> load_Point (Addr l) h = Ok P h.
Proof. intros E. unfold load_Point. now rewrite (bind_ok _ _ _ _ _ (load_at _ _ _ E)). Qed.

Lemma load_Placemark_at h l PM :
  h !! l = Some (OPlacemark PM) -> load_Placemark (Addr l) h = Ok PM h.
Proof. intros E. unfold load_Placemark. now rewrite (bind_ok _ _ _ _ _ (load_at _ _ _ E)). Qed.

(** A typed load that returns leaves the heap as it was. *)
Ltac load_inv_tac H :=
  apply bind_inv in H as (o & h1 & Hl & Hk);
  apply load_inv in Hl as (l & -> & Hl & ->);
  destruct o; try discriminate Hk;
  injection Hk as <- <-; now exists l.

Lemma load_KML_inv p h K h' :
  load_KML p h = Ok K h' -> exists l, p = Addr l /\ h !! l = Some (OKML K) /\ h' = h.
Proof. unfold load_KML. intros H. load_inv_tac H. Qed.

Lemma load_Folder_inv p h F h' :
  load_Folder p h = Ok F h' -> exists l, p = Addr l /\ h !! l = Some (OFolder F) /\ h' = h.
Proof. unfold load_Folder. intros H. load_inv_tac H. Qed.

Lemma load_Style_inv p h S h' :
  load_Style p h = Ok S h' -> exists l, p = Addr l /\ h !! l = Some (OStyle S) /\ h' = h.
Proof. unfold load_Style. intros H. load_inv_tac H. Qed.

Lemma load_Point_inv p h P h' :
  load_Point p h = Ok P h' -> exists l, p = Addr l /\ h !! l = Some (OPoint P) /\ h' = h.
Proof. unfold load_Point. intros H. load_inv_tac H. Qed.

Lemma load_Placemark_inv p h PM h' :
  load_Placemark p h = Ok PM h' ->
  exists l, p = Addr l /\ h !! l = Some (OPlacemark PM) /\ h' = h.
Proof. unfold load_Placemark. intros H. load_inv_tac H. Qed.

(** An allocation returns an address the heap did not use. *)
Lemma alloc_fresh o h :
  exists l, h !! l = None /\ alloc o h = Ok (Addr l) (<[l := o]> h).
Proof.
  exists (fresh (dom h)). split; [|reflexivity].
  apply not_elem_of_dom. apply is_fresh.
Qed.

Lemma string_app_assoc (a b c : string) : (a +:+ b) +:+ c = a +:+ (b +:+ c).
Proof.
  induction a as [|x a IH]; [reflexivity|].
  change (String x ((a +:+ b) +:+ c) = String x (a +:+ (b +:+ c))). now rewrite IH.
Qed.

Lemma app_tail_ex (a b tail : string) :
  (exists pre, b = pre +:+ tail) -> exists pre, a +:+ b = pre +:+ tail.
Proof. intros (pre & ->). exists (a +:+ pre). now rewrite string_app_assoc. Qed.

Lemma Ok_tail_ex (t tail : string) (h : heap) :
  (exists pre, t = pre +:+ tail) -> exists pre, Ok t h = Ok (pre +:+ tail) h.
Proof. intros (pre & ->). now exists pre. Qed.

(** ** Comparisons of [float64] *)

Lemma SFcompare_antisym (a b : float64) :
  SFcompare b a = option_map CompOpp (SFcompare a b).
Proof.
  destruct a as [sa|sa| |sa ma ea], b as [sb|sb| |sb mb eb]; simpl;
    try (destruct sa); try (destruct sb); try reflexivity;
    rewrite (Z.compare_antisym ea eb); destruct (ea ?= eb); simpl; try reflexivity;
    try rewrite CompOpp_involutive; f_equal;
    first [ exact (Pos.compare_cont_antisym mb ma Eq)
          | symmetry; exact (Pos.compare_cont_antisym ma mb Eq) ].
Qed.

Lemma SFleb_negb_SFltb (a x : float64) :
  IsNaN a = false -> IsNaN x = false -> SFleb a x = negb (SFltb x a).
Proof.
  intros Ha Hx. unfold SFleb, SFltb. rewrite (SFcompare_antisym a x).
  destruct (SFcompare a x) as [[| |]|] eqn:E; simpl; try reflexivity.
  destruct a, x; try discriminate; simpl in E;
    repeat match type of E with context [if ?b then _ else _] => destruct b end;
    discriminate.
Qed.

(** For a number, being outside the interval is the test of the source. *)
Lemma out_of_range_test (c x : float64) :
  IsNaN c = false -> IsNaN x = false ->
  fgt x c || flt x (neg c) = negb (in_range (neg c) c x).
Proof.
  intros Hc Hx. unfold fgt, flt, in_range.
  rewrite (SFleb_negb_SFltb (neg c) x), (SFleb_negb_SFltb x c); auto.
  - destruct (SFltb c x), (SFltb x (neg c)); reflexivity.
  - destruct c; try discriminate; reflexivity.
Qed.

Lemma finite_not_nan (x : float64) : finite x = true -> IsNaN x = false.
Proof. unfold finite. destruct x; simpl; congruence. Qed.

(** ** NewPoint: the four checks in the order of the source *)

Lemma NewPoint_cases (lat lon alt : float64) (h : heap) :
  NewPoint lat lon alt h =
    if negb (finite lat) then Ok (NilPtr, Some "Lat is NaN or Inf.") h
    else if negb (in_range (neg F90) F90 lat) then
      Ok (NilPtr, Some ("Invalid Lat: " +:+ fmt_f lat)) h
    else if negb (finite lon) then Ok (NilPtr, Some "Lon is NaN or Inf.") h
    else if negb (in_range (neg F180) F180 lon) then
      Ok (NilPtr, Some ("Invalid Lon: " +:+ fmt_f lon)) h
    else
      let l := fresh (dom h) in
      Ok (Addr l, None)
         (<[l := OPoint {| Lat := lat; Lon := lon;
                           Alt := if IsNaN alt || IsInf alt then F0 else alt |}]> h).
Proof.
  unfold NewPoint, finite.
  destruct (IsNaN lat || IsInf lat) eqn:Elat; [reflexivity|]. simpl negb at 1. cbv iota.
  assert (Nlat : IsNaN lat = false) by (destruct lat; simpl in *; congruence).
  rewrite (out_of_range_test F90 lat eq_refl Nlat).
  destruct (negb (in_range (neg F90) F90 lat)); [reflexivity|].
  destruct (IsNaN lon || IsInf lon) eqn:Elon; [reflexivity|]. simpl negb at 1. cbv iota.
  assert (Nlon : IsNaN lon = false) by (destruct lon; simpl in *; congruence).
  rewrite (out_of_range_test F180 lon eq_refl Nlon).
  destruct (negb (in_range (neg F180) F180 lon)); reflexivity.
Qed.

(** ** Style: the default of the fill flag *)

(** C1 (the code differs). The specification, and the comment of
    [SetPolygonFill] in the source, give "no fill" (0) as the default of the
    fill flag.  [NewStyle] stores 1: for every name, every colour and every
    heap, the new Style has [fill = 1] and its rendering ends with the line
    [<fill>1</fill>] of the PolyStyle element. *)
Theorem NewStyle_fill_default (name : string) (a r g b : Z) (h : heap) :
  exists l S,
    h !! l = None /\
    NewStyle name a r g b h = Ok (Addr l) (<[l := OStyle S]> h) /\
    fill S = 1 /\
    exists pre,
      Style_render (Addr l) (<[l := OStyle S]> h) =
        Ok (pre +:+ "<fill>1</fill>" +:+ LF +:+ "<outline>1</outline>" +:+ LF +:+
            "</PolyStyle>" +:+ LF +:+ "</Style>" +:+ LF)
           (<[l := OStyle S]> h).
Proof.
  unfold NewStyle.
  destruct (alloc_fresh
    (OStyle {| Style_name := name; alpha := a; red := r; green := g; blue := b;
               iconURL := "http://maps.google.com/mapfiles/kml/pushpin/ylw-pushpin.png";
               iconScale := F1_1; fill := 1 |}) h) as (l & Hl & Ha).
  exists l. eexists. split; [exact Hl|]. split; [exact Ha|]. split; [reflexivity|].
  unfold Style_render.
  rewrite (bind_ok _ _ _ _ _ (load_Style_at _ l _ (lookup_insert_eq h l _))).
  unfold ret. cbn [Style_name alpha red green blue iconURL iconScale fill].
  apply Ok_tail_ex.
  repeat first [ solve [exists EmptyString; reflexivity] | apply app_tail_ex ].
Qed.

(** ** Point: validation *)

(** C2 (amended). The latitude is checked before the longitude.  For every
    latitude among 91, -91, NaN, +Inf and every longitude and altitude,
    [NewPoint] fails with a latitude error.  For every longitude among 181,
    -181, NaN, +Inf it fails with a longitude error when the latitude is
    valid (finite and in [-90, 90]).  In both cases no Point is allocated. *)
Theorem NewPoint_error_kind (lat lon alt : float64) (h : heap) :
  (In lat bad_lats ->
     exists msg, NewPoint lat lon alt h = Ok (NilPtr, Some msg) h /\
                 is_lat_error msg = true /\ is_lon_error msg = false) /\
  (In lon bad_lons -> valid_lat lat = true ->
     exists msg, NewPoint lat lon alt h = Ok (NilPtr, Some msg) h /\
                 is_lon_error msg = true /\ is_lat_error msg = false).
Proof.
  split.
  - intros Hin. rewrite NewPoint_cases.
    destruct Hin as [<-|[<-|[<-|[<-|[]]]]]; eexists; (split; [reflexivity|]);
      split; reflexivity.
  - intros Hin Hv. rewrite NewPoint_cases.
    unfold valid_lat in Hv. apply andb_prop in Hv as [-> ->]. cbn [negb].
    destruct Hin as [<-|[<-|[<-|[<-|[]]]]]; eexists; (split; [reflexivity|]);
      split; reflexivity.
Qed.

Lemma NewPoint_error_kind_witness :
  (exists msg, NewPoint F91 F181 F0 ∅ = Ok (NilPtr, Some msg) ∅ /\
               is_lat_error msg = true /\ is_lon_error msg = false) /\
  (exists msg, NewPoint F90 F181 F0 ∅ = Ok (NilPtr, Some msg) ∅ /\
               is_lon_error msg = true /\ is_lat_error msg = false).
Proof.
  split.
  - apply (proj1 (NewPoint_error_kind F91 F181 F0 ∅)). left. reflexivity.
  - apply (proj2 (NewPoint_error_kind F90 F181 F0 ∅)).
    + left. reflexivity.
    + reflexivity.
Defined.

(** C2 as stated fails: with latitude 91 and longitude 181 the error is the
    one of the latitude, [Invalid Lat: 91.000000], not a longitude error. *)
Lemma NewPoint_lon_error_needs_valid_lat :
  NewPoint F91 F181 F0 ∅ = Ok (NilPtr, Some "Invalid Lat: 91.000000") ∅ /\
  ~ (exists msg h, NewPoint F91 F181 F0 ∅ = Ok (NilPtr, Some msg) h /\
                   is_lon_error msg = true).
Proof.
  assert (E : NewPoint F91 F181 F0 ∅ = Ok (NilPtr, Some "Invalid Lat: 91.000000") ∅)
    by reflexivity.
  split; [exact E|].
  intros (msg & h & H & Hlon). rewrite E in H. injection H as <- _.
  discriminate Hlon.
Qed.

(** C3 (amended). Whenever the latitude or the longitude is not valid,
    [NewPoint] returns the nil pointer with an error and leaves the heap as it
    was.  The error is a message: for a finite coordinate out of range it is
    [Invalid Lat: ] or [Invalid Lon: ] followed by the rejected value in the
    format %f; for a NaN or an infinity it is the fixed text
    [Lat is NaN or Inf.] or [Lon is NaN or Inf.], without the value. *)
Theorem NewPoint_rejects (lat lon alt : float64) (h : heap) :
  valid_lat lat && valid_lon lon = false ->
  exists msg,
    NewPoint lat lon alt h = Ok (NilPtr, Some msg) h /\
    msg = (if negb (finite lat) then "Lat is NaN or Inf."
           else if negb (in_range (neg F90) F90 lat) then "Invalid Lat: " +:+ fmt_f lat
           else if negb (finite lon) then "Lon is NaN or Inf."
           else "Invalid Lon: " +:+ fmt_f lon).
Proof.
  intros Hinv. rewrite NewPoint_cases. unfold valid_lat, valid_lon in Hinv.
  destruct (finite lat); [|eexists; split; reflexivity].
  destruct (in_range (neg F90) F90 lat); [|eexists; split; reflexivity].
  destruct (finite lon); [|eexists; split; reflexivity].
  destruct (in_range (neg F180) F180 lon); [discriminate Hinv|].
  eexists; split; reflexivity.
Qed.

Lemma NewPoint_rejects_witness :
  exists msg,
    NewPoint F91 F0 F0 ∅ = Ok (NilPtr, Some msg) ∅ /\
    msg = "Invalid Lat: 91.000000".
Proof. apply (NewPoint_rejects F91 F0 F0 ∅). reflexivity. Defined.

(** C3 as stated fails: for the latitudes +Inf and -Inf the error is the same
    text [Lat is NaN or Inf.], in which the rejected value does not occur. *)
Lemma NewPoint_nonfinite_error_without_value :
  NewPoint FInf F0 F0 ∅ = NewPoint (neg FInf) F0 F0 ∅ /\
  ~ (exists msg h, NewPoint FInf F0 F0 ∅ = Ok (NilPtr, Some msg) h /\
                   occurs (fmt_f FInf) msg = true).
Proof.
  split; [reflexivity|].
  intros (msg & h & H & Hocc).
  assert (E : NewPoint FInf F0 F0 ∅ = Ok (NilPtr, Some "Lat is NaN or Inf.") ∅)
    by reflexivity.
  rewrite E in H. injection H as <- _. discriminate Hocc.
Qed.

(** C4. For every finite latitude in [-90, 90], every finite longitude in
    [-180, 180] and every altitude, [NewPoint] returns a new Point and the nil
    error; the Point holds the latitude and the longitude, and the altitude,
    or 0.0 when the altitude is a NaN or an infinity; its rendering has the
    altitude mode clampToGround and the coordinates in the order longitude,
    latitude, altitude. *)
Theorem NewPoint_valid (lat lon alt : float64) (h : heap) :
  valid_lat lat = true -> valid_lon lon = true ->
  exists l P,
    h !! l = None /\
    NewPoint lat lon alt h = Ok (Addr l, None) (<[l := OPoint P]> h) /\
    Lat P = lat /\ Lon P = lon /\
    Alt P = (if finite alt then alt else F0) /\
    Point_render (Addr l) (<[l := OPoint P]> h) =
      Ok ("<Point>" +:+ LF +:+
          "<extrude>0</extrude>" +:+ LF +:+
          "<altitudeMode>clampToGround</altitudeMode>" +:+ LF +:+
          "<coordinates>" +:+ fmt_f lon +:+ "," +:+ fmt_f lat +:+ "," +:+
            fmt_f (if finite alt then alt else F0) +:+ "</coordinates>" +:+ LF +:+
          "</Point>" +:+ LF)
         (<[l := OPoint P]> h).
Proof.
  intros Hlat Hlon. rewrite NewPoint_cases.
  unfold valid_lat in Hlat. apply andb_prop in Hlat as [-> ->].
  unfold valid_lon in Hlon. apply andb_prop in Hlon as [-> ->].
  cbn [negb].
  exists (fresh (dom h)).
  exists {| Lat := lat; Lon := lon; Alt := if IsNaN alt || IsInf alt then F0 else alt |}.
  assert (Ealt : (if IsNaN alt || IsInf alt then F0 else alt) =
                 (if finite alt then alt else F0))
    by (unfold finite; destruct (IsNaN alt || IsInf alt); reflexivity).
  repeat split.
  - apply not_elem_of_dom, is_fresh.
  - exact Ealt.
  - unfold Point_render.
    rewrite (bind_ok _ _ _ _ _ (load_Point_at _ _ _ (lookup_insert_eq h _ _))).
    cbn [Lat Lon Alt]. rewrite Ealt. reflexivity.
Qed.

Lemma NewPoint_valid_witness :
  exists l P,
    (∅ : heap) !! l = None /\
    NewPoint F90 (neg F180) FNaN ∅ = Ok (Addr l, None) (<[l := OPoint P]> ∅) /\
    Lat P = F90 /\ Lon P = neg F180 /\ Alt P = F0 /\
    Point_render (Addr l) (<[l := OPoint P]> ∅) =
      Ok ("<Point>" +:+ LF +:+
          "<extrude>0</extrude>" +:+ LF +:+
          "<altitudeMode>clampToGround</altitudeMode>" +:+ LF +:+
          "<coordinates>-180.000000,90.000000,0.000000</coordinates>" +:+ LF +:+
          "</Point>" +:+ LF)
         (<[l := OPoint P]> ∅).
Proof. apply (NewPoint_valid F90 (neg F180) FNaN ∅); reflexivity. Defined.

(** ** Style: icon scale and colour *)

(** C5. [SetIconScale] stores the scale exactly when it lies in the closed
    interval [0, 100], 0 and 100 included; for every other argument, -0.1,
    100.1 and NaN among them, the heap and so every field of the Style is
    left as it was.  The call returns in both cases, without an error. *)
Theorem SetIconScale_spec (h : heap) (l : loc) (S : Style) (scale : float64) :
  h !! l = Some (OStyle S) ->
  Style_SetIconScale (Addr l) scale h =
    Ok tt (if in_range F0 F100 scale
           then <[l := OStyle {| Style_name := Style_name S; alpha := alpha S;
                                 red := red S; green := green S; blue := blue S;
                                 iconURL := iconURL S; iconScale := scale;
                                 fill := fill S |}]> h
           else h) /\
  in_range F0 F100 F0 = true /\ in_range F0 F100 F100 = true /\
  in_range F0 F100 (neg F0_1) = false /\ in_range F0 F100 F100_1 = false /\
  in_range F0 F100 FNaN = false.
Proof.
  intros Hl. split; [|repeat split; reflexivity].
  unfold Style_SetIconScale.
  change (fge scale F0 && fle scale F100) with (in_range F0 F100 scale).
  destruct (in_range F0 F100 scale); [|reflexivity].
  rewrite (bind_ok _ _ _ _ _ (load_Style_at _ _ _ Hl)). reflexivity.
Qed.

Lemma SetIconScale_spec_witness :
  let S0 := {| Style_name := "s"; alpha := 255; red := 1; green := 2; blue := 3;
               iconURL := "pin.png"; iconScale := F1_1; fill := 0 |} in
  let h0 : heap := <[1%positive := OStyle S0]> ∅ in
  Style_SetIconScale (Addr 1%positive) F100_1 h0 =
    Ok tt (if in_range F0 F100 F100_1
           then <[1%positive := OStyle {| Style_name := "s"; alpha := 255;
                                 red := 1; green := 2; blue := 3;
                                 iconURL := "pin.png"; iconScale := F100_1;
                                 fill := 0 |}]> h0
           else h0) /\
  in_range F0 F100 F0 = true /\ in_range F0 F100 F100 = true /\
  in_range F0 F100 (neg F0_1) = false /\ in_range F0 F100 F100_1 = false /\
  in_range F0 F100 FNaN = false.
Proof.
  intros S0 h0. apply (SetIconScale_spec h0 1%positive S0 F100_1). reflexivity.
Defined.

(** [%02x] on a value of a [uint8]: two lowercase hexadecimal digits. *)
Lemma fmt_02x_uint8 (n : Z) :
  uint8 n ->
  String.length (fmt_02x n) = 2%nat /\
  forallb is_lower_hex (list_ascii_of_string (fmt_02x n)) = true.
Proof.
  intros Hn.
  assert (All : forallb (fun k : nat =>
            (String.length (fmt_02x (Z.of_nat k)) =? 2)%nat &&
            forallb is_lower_hex (list_ascii_of_string (fmt_02x (Z.of_nat k))))
          (seq 0 256) = true) by (vm_compute; reflexivity).
  rewrite forallb_forall in All.
  specialize (All (Z.to_nat n)).
  rewrite Z2Nat.id in All by (unfold uint8 in Hn; lia).
  destruct (andb_prop _ _ (All ltac:(apply in_seq; unfold uint8 in Hn; lia))) as [H1 H2].
  split; [now apply Nat.eqb_eq|exact H2].
Qed.

Lemma length_append (a b : string) :
  String.length (a +:+ b) = (String.length a + String.length b)%nat.
Proof.
  induction a as [|x a IH]; [reflexivity|].
  change (Datatypes.S (String.length (a +:+ b)) =
          Datatypes.S (String.length a + String.length b)). now rewrite IH.
Qed.

Lemma list_ascii_append (a b : string) :
  list_ascii_of_string (a +:+ b) = list_ascii_of_string a ++ list_ascii_of_string b.
Proof.
  induction a as [|x a IH]; [reflexivity|].
  change (x :: list_ascii_of_string (a +:+ b) =
          x :: (list_ascii_of_string a ++ list_ascii_of_string b)). now rewrite IH.
Qed.

(** C6. For every Style with its four channels in 0..255, [render] returns a
    text in which one colour, eight lowercase hexadecimal digits made of two
    digits for alpha, blue, green and red in this order, stands between
    [<color>] and [</color>] in each of IconStyle, LineStyle and PolyStyle;
    for alpha 255, red 1, green 2, blue 3 the digits are [ff030201]. *)
Theorem Style_render_color (h : heap) (l : loc) (S : Style) :
  h !! l = Some (OStyle S) ->
  uint8 (alpha S) -> uint8 (red S) -> uint8 (green S) -> uint8 (blue S) ->
  let c := color_digits S in
  Style_render (Addr l) h =
    Ok ("<Style id=" +:+ DQ +:+ Style_name S +:+ DQ +:+ ">" +:+ LF +:+
        "<IconStyle>" +:+ LF +:+
        "<color>" +:+ c +:+ "</color>" +:+ LF +:+
        "<scale>" +:+ fmt_f (iconScale S) +:+ "</scale>" +:+ LF +:+
        "<Icon><href>" +:+ iconURL S +:+ "</href></Icon>" +:+ LF +:+
        "</IconStyle>" +:+ LF +:+
        "<LineStyle>" +:+ LF +:+
        "<color>" +:+ c +:+ "</color>" +:+ LF +:+
        "<width>3</width>" +:+ LF +:+
        "</LineStyle>" +:+ LF +:+
        "<PolyStyle>" +:+ LF +:+
        "<color>" +:+ c +:+ "</color>" +:+ LF +:+
        "<colorMode>normal</colorMode>" +:+ LF +:+
        "<fill>" +:+ fmt_d (fill S) +:+ "</fill>" +:+ LF +:+
        "<outline>1</outline>" +:+ LF +:+
        "</PolyStyle>" +:+ LF +:+
        "</Style>" +:+ LF) h /\
  String.length c = 8%nat /\
  forallb is_lower_hex (list_ascii_of_string c) = true /\
  (alpha S = 255 -> red S = 1 -> green S = 2 -> blue S = 3 -> c = "ff030201").
Proof.
  intros Hl Ha Hr Hg Hb c.
  destruct (fmt_02x_uint8 _ Ha) as [La Xa], (fmt_02x_uint8 _ Hr) as [Lr Xr],
           (fmt_02x_uint8 _ Hg) as [Lg Xg], (fmt_02x_uint8 _ Hb) as [Lb Xb].
  split; [|split; [|split]].
  - unfold Style_render.
    rewrite (bind_ok _ _ _ _ _ (load_Style_at _ _ _ Hl)).
    unfold ret, c, color_digits. f_equal.
    repeat rewrite string_app_assoc. reflexivity.
  - unfold c, color_digits. rewrite !length_append, La, Lb, Lg, Lr. reflexivity.
  - unfold c, color_digits. rewrite !list_ascii_append, !forallb_app, Xa, Xb, Xg, Xr.
    reflexivity.
  - intros Ea Er Eg Eb. unfold c, color_digits. rewrite Ea, Er, Eg, Eb. reflexivity.
Qed.

Lemma Style_render_color_witness :
  let S0 := {| Style_name := "s"; alpha := 255; red := 1; green := 2; blue := 3;
               iconURL := "pin.png"; iconScale := F1_1; fill := 0 |} in
  let h0 : heap := <[1%positive := OStyle S0]> ∅ in
  Style_render (Addr 1%positive) h0 =
    Ok ("<Style id=" +:+ DQ +:+ "s" +:+ DQ +:+ ">" +:+ LF +:+
        "<IconStyle>" +:+ LF +:+
        "<color>ff030201</color>" +:+ LF +:+
        "<scale>1.100000</scale>" +:+ LF +:+
        "<Icon><href>pin.png</href></Icon>" +:+ LF +:+
        "</IconStyle>" +:+ LF +:+
        "<LineStyle>" +:+ LF +:+
        "<color>ff030201</color>" +:+ LF +:+
        "<width>3</width>" +:+ LF +:+
        "</LineStyle>" +:+ LF +:+
        "<PolyStyle>" +:+ LF +:+
        "<color>ff030201</color>" +:+ LF +:+
        "<colorMode>normal</colorMode>" +:+ LF +:+
        "<fill>0</fill>" +:+ LF +:+
        "<outline>1</outline>" +:+ LF +:+
        "</PolyStyle>" +:+ LF +:+
        "</Style>" +:+ LF) h0 /\
  color_digits S0 = "ff030201".
Proof.
  intros S0 h0.
  destruct (Style_render_color h0 1%positive S0) as (Hr & _ & _ & Hc);
    try reflexivity; try (unfold uint8; cbn; lia).
  split; [exact Hr | apply Hc; reflexivity].
Defined.

(** ** Containers: adding children *)

(** On a Document, [AddFolder] with the nil folder leaves the heap, and
    so the sequence of folders, as it was, and with a folder it appends the
    folder after the folders already there.  On a Folder, [AddFeature] with
    the nil feature leaves the heap as it was, and with a feature (any value
    of the interface other than nil) it appends the feature after the
    features already there.  No other object changes. *)
Lemma Add_nil_or_append (h : heap) (k f : loc) (K : KML) (F : Folder) :
  h !! k = Some (OKML K) -> h !! f = Some (OFolder F) ->
  KML_AddFolder (Addr k) NilPtr h = Ok tt h /\
  (forall l, KML_AddFolder (Addr k) (Addr l) h =
             Ok tt (<[k := OKML {| folders := folders K ++ [Addr l] |}]> h)) /\
  Folder_AddFeature (Addr f) NilIface h = Ok tt h /\
  (forall t p, Folder_AddFeature (Addr f) (Iface t p) h =
               Ok tt (<[f := OFolder {| Folder_name := Folder_name F;
                                        Folder_description := Folder_description F;
                                        features := features F ++ [Iface t p] |}]> h)).
Proof.
  intros Hk Hf. repeat split.
  - intros l. unfold KML_AddFolder. cbn [ptr_is_nil negb].
    now rewrite (bind_ok _ _ _ _ _ (load_KML_at _ _ _ Hk)).
  - intros t p. unfold Folder_AddFeature. cbn [iface_is_nil negb].
    now rewrite (bind_ok _ _ _ _ _ (load_Folder_at _ _ _ Hf)).
Qed.

Lemma Add_nil_or_append_witness :
  let K0 := {| folders := [Addr 2%positive] |} in
  let F0 := {| Folder_name := "a"; Folder_description := "b";
               features := [Iface TFolder (Addr 3%positive)] |} in
  let h0 : heap := <[1%positive := OKML K0]> (<[2%positive := OFolder F0]> ∅) in
  KML_AddFolder (Addr 1%positive) NilPtr h0 = Ok tt h0 /\
  (forall l, KML_AddFolder (Addr 1%positive) (Addr l) h0 =
             Ok tt (<[1%positive := OKML {| folders := [Addr 2%positive; Addr l] |}]> h0)) /\
  Folder_AddFeature (Addr 2%positive) NilIface h0 = Ok tt h0 /\
  (forall t p, Folder_AddFeature (Addr 2%positive) (Iface t p) h0 =
               Ok tt (<[2%positive := OFolder {| Folder_name := "a";
                                        Folder_description := "b";
                                        features := [Iface TFolder (Addr 3%positive);
                                                     Iface t p] |}]> h0)).
Proof.
  intros K0 F0 h0.
  apply (Add_nil_or_append h0 1%positive 2%positive K0 F0); reflexivity.
Defined.

(** ** Rendering reads the heap and does not write it *)

Lemma foldM_pure {A} (f : string -> A -> M string) (l : list A) :
  (forall b a h r h', List.In a l -> f b a h = Ok r h' -> h' = h) ->
  forall b h r h', foldM f l b h = Ok r h' -> h' = h.
Proof.
  induction l as [|a l IH]; intros Hf b h r h' H.
  - now injection H as _ <-.
  - cbn [foldM] in H. apply bind_inv in H as (b1 & h1 & H1 & H2).
    apply Hf in H1 as ->; [|now left].
    eapply IH; [|exact H2]. intros b0 a0 h0 r0 h0' Hin. apply Hf. now right.
Qed.

Lemma Style_render_pure p h s h' : Style_render p h = Ok s h' -> h' = h.
Proof.
  unfold Style_render. intros H. apply bind_inv in H as (S & h1 & H1 & H2).
  apply load_Style_inv in H1 as (l & _ & _ & ->). now injection H2 as _ <-.
Qed.

Lemma Point_render_pure p h s h' : Point_render p h = Ok s h' -> h' = h.
Proof.
  unfold Point_render. intros H. apply bind_inv in H as (P & h1 & H1 & H2).
  apply load_Point_inv in H1 as (l & _ & _ & ->). now injection H2 as _ <-.
Qed.

Section OpenRecursion.
(** [rec] stands for the dispatch of the nested calls. *)
Variable rec : renderable -> M string.
Hypothesis rec_pure : forall r h s h', rec r h = Ok s h' -> h' = h.

Lemma Placemark_render_pure p h s h' :
  Placemark_render rec p h = Ok s h' -> h' = h.
Proof.
  unfold Placemark_render. intros H. apply bind_inv in H as (PM & h1 & H1 & H2).
  apply load_Placemark_inv in H1 as (l & _ & _ & ->).
  apply bind_inv in H2 as (g & h2 & H2 & H3).
  apply rec_pure in H2 as ->. now injection H3 as _ <-.
Qed.

Lemma Folder_render_pure p h s h' :
  Folder_render rec p h = Ok s h' -> h' = h.
Proof.
  unfold Folder_render. intros H. apply bind_inv in H as (F & h1 & H1 & H2).
  apply load_Folder_inv in H1 as (l & _ & _ & ->).
  apply bind_inv in H2 as (r & h2 & H2 & H3).
  apply foldM_pure in H2 as ->.
  - now injection H3 as _ <-.
  - intros b a h0 r0 h0' _ H0. apply bind_inv in H0 as (s0 & h3 & H4 & H5).
    apply rec_pure in H4 as ->. now injection H5 as _ <-.
Qed.

Lemma KML_Render_pure k h s h' :
  KML_Render rec k h = Ok s h' -> h' = h.
Proof.
  unfold KML_Render. intros H. apply bind_inv in H as (K & h1 & H1 & H2).
  apply load_KML_inv in H1 as (l & _ & _ & ->).
  apply bind_inv in H2 as (r & h2 & H2 & H3).
  apply foldM_pure in H2 as ->.
  - now injection H3 as _ <-.
  - intros b a h0 r0 h0' _ H0. apply bind_inv in H0 as (s0 & h3 & H4 & H5).
    apply Folder_render_pure in H4 as ->. now injection H5 as _ <-.
Qed.
End OpenRecursion.

Lemma render_heap (fuel : nat) :
  forall r h s h', render fuel r h = Ok s h' -> h' = h.
Proof.
  induction fuel as [|n IH]; intros [|t p] h s h' H; try discriminate H.
  destruct t; cbn [render] in H.
  - eapply Folder_render_pure; eauto.
  - eapply Style_render_pure; eauto.
  - eapply Point_render_pure; eauto.
  - eapply Placemark_render_pure; eauto.
Qed.

(** C9. Rendering reads the heap and writes nothing: whenever a call of
    [render] on a node (a Folder, a Placemark, a Style or a Point, through
    the interface) or of [Render] on a Document returns, the heap it leaves
    is the heap it started on, so that no field of the node or of a
    descendant has changed, and the same call made again returns the same
    text. *)
Theorem render_pure (fuel : nat) :
  (forall r h s h',
     render fuel r h = Ok s h' -> h' = h /\ render fuel r h' = Ok s h') /\
  (forall k h s h',
     Render fuel k h = Ok s h' -> h' = h /\ Render fuel k h' = Ok s h').
Proof.
  split.
  - intros r h s h' H. pose proof (render_heap fuel _ _ _ _ H) as ->. now split.
  - intros k h s h' H.
    pose proof (KML_Render_pure _ (render_heap fuel) _ _ _ _ H) as ->. now split.
Qed.

Example example_program_runs : run example_program = Ok (Addr 1%positive) example_heap.
Proof. vm_compute. reflexivity. Qed.

Example example_renders : Render 2 (Addr 1%positive) example_heap = Ok example_text example_heap.
Proof. vm_compute. reflexivity. Qed.

Lemma render_pure_witness :
  Render 2 (Addr 1%positive) example_heap = Ok example_text example_heap /\
  (example_heap = example_heap /\
   Render 2 (Addr 1%positive) example_heap = Ok example_text example_heap).
Proof.
  assert (E : Render 2 (Addr 1%positive) example_heap = Ok example_text example_heap)
    by (vm_compute; reflexivity).
  split; [exact E|]. exact (proj2 (render_pure 2) _ _ _ _ E).
Defined.

(** ** Rendering returns on a tree, and more fuel changes nothing *)

Lemma foldM_total {A} (f : string -> A -> M string) (l : list A) (h : heap) :
  (forall a, List.In a l -> forall b, exists s, f b a h = Ok s h) ->
  forall b, exists r, foldM f l b h = Ok r h.
Proof.
  induction l as [|a l IH]; intros Hf b.
  - now exists b.
  - destruct (Hf a (or_introl eq_refl) b) as (s & Hs).
    destruct (IH (fun a' Hin => Hf a' (or_intror Hin)) s) as (r & Hr).
    exists r. cbn [foldM]. now rewrite (bind_ok _ _ _ _ _ Hs).
Qed.

Lemma render_total (h : heap) :
  forall d r, tree h d r -> exists s, render d r h = Ok s h.
Proof.
  induction d as [|d IH]; intros r T; inversion T; subst; cbn [render].
  - unfold Style_render. rewrite (bind_ok _ _ _ _ _ (load_Style_at _ _ _ H0)).
    eexists. reflexivity.
  - unfold Point_render. rewrite (bind_ok _ _ _ _ _ (load_Point_at _ _ _ H0)).
    eexists. reflexivity.
  - unfold Placemark_render. rewrite (bind_ok _ _ _ _ _ (load_Placemark_at _ _ _ H0)).
    destruct (IH _ H1) as (g & Hg). rewrite (bind_ok _ _ _ _ _ Hg).
    eexists. reflexivity.
  - unfold Folder_render. rewrite (bind_ok _ _ _ _ _ (load_Folder_at _ _ _ H0)).
    match goal with |- context [foldM ?f ?l ?b0] =>
      destruct (foldM_total f l h) with (b := b0) as (r & Hr) end.
    + intros a Hin b. rewrite Forall_forall in H1.
      destruct (IH a (H1 a ltac:(now apply list_elem_of_In))) as (s & Hs).
      exists (b +:+ s). now rewrite (bind_ok _ _ _ _ _ Hs).
    + rewrite (bind_ok _ _ _ _ _ Hr). eexists. reflexivity.
Qed.

(** A Document whose folders are trees of depth at most [d + 1] renders with
    fuel [d]. *)
Lemma Render_total (h : heap) (d : nat) (k : loc) (K : KML) :
  h !! k = Some (OKML K) ->
  Forall (fun p => tree h (S d) (Iface TFolder p)) (folders K) ->
  exists s, Render d (Addr k) h = Ok s h.
Proof.
  intros Hk HF. unfold Render, KML_Render.
  rewrite (bind_ok _ _ _ _ _ (load_KML_at _ _ _ Hk)).
  match goal with |- context [foldM ?f ?l ?b0] =>
    destruct (foldM_total f l h) with (b := b0) as (r & Hr) end.
  - intros p Hin b. rewrite Forall_forall in HF.
    destruct (render_total h _ _ (HF p ltac:(now apply list_elem_of_In))) as (s & Hs).
    exists (b +:+ s). cbn [render] in Hs. now rewrite (bind_ok _ _ _ _ _ Hs).
  - rewrite (bind_ok _ _ _ _ _ Hr). eexists. reflexivity.
Qed.

Lemma foldM_mono {A} (f1 f2 : string -> A -> M string) (l : list A) :
  (forall b a h r h', f1 b a h = Ok r h' -> f2 b a h = Ok r h') ->
  forall b h r h', foldM f1 l b h = Ok r h' -> foldM f2 l b h = Ok r h'.
Proof.
  intros Hf. induction l as [|a l IH]; intros b h r h' H; [exact H|].
  cbn [foldM] in *. apply bind_inv in H as (b1 & h1 & H1 & H2).
  rewrite (bind_ok _ _ _ _ _ (Hf _ _ _ _ _ H1)). now apply IH.
Qed.

Section MoreFuel.
Variables rec1 rec2 : renderable -> M string.
Hypothesis rec_le : forall r h s h', rec1 r h = Ok s h' -> rec2 r h = Ok s h'.

Lemma Placemark_render_mono p h s h' :
  Placemark_render rec1 p h = Ok s h' -> Placemark_render rec2 p h = Ok s h'.
Proof.
  unfold Placemark_render. intros H. apply bind_inv in H as (PM & h1 & H1 & H2).
  rewrite (bind_ok _ _ _ _ _ H1).
  apply bind_inv in H2 as (g & h2 & H2 & H3).
  now rewrite (bind_ok _ _ _ _ _ (rec_le _ _ _ _ H2)).
Qed.

Lemma Folder_render_mono p h s h' :
  Folder_render rec1 p h = Ok s h' -> Folder_render rec2 p h = Ok s h'.
Proof.
  unfold Folder_render. intros H. apply bind_inv in H as (F & h1 & H1 & H2).
  rewrite (bind_ok _ _ _ _ _ H1).
  apply bind_inv in H2 as (r & h2 & H2 & H3).
  eapply foldM_mono in H2.
  - rewrite (bind_ok _ _ _ _ _ H2). exact H3.
  - intros b a h0 r0 h0' H0. cbv beta in *.
    apply bind_inv in H0 as (s0 & h3 & H4 & H5).
    now rewrite (bind_ok _ _ _ _ _ (rec_le _ _ _ _ H4)).
Qed.
End MoreFuel.

Lemma render_fuel_S (n : nat) :
  forall r h s h', render n r h = Ok s h' -> render (S n) r h = Ok s h'.
Proof.
  induction n as [|n IH]; intros [|t p] h s h' H; try discriminate H.
  destruct t.
  - exact (Folder_render_mono _ _ IH _ _ _ _ H).
  - exact H.
  - exact H.
  - exact (Placemark_render_mono _ _ IH _ _ _ _ H).
Qed.

(** The text does not depend on the bound on the depth of calls. *)
Lemma render_fuel_le (n m : nat) r h s h' :
  (n <= m)%nat -> render n r h = Ok s h' -> render m r h = Ok s h'.
Proof.
  induction 1 as [|m Hle IH]; intros H; [exact H|].
  apply render_fuel_S. now apply IH.
Qed.

(** ** Placemark *)

Lemma nonempty_test (s : string) :
  (0 <? String.length s)%nat = match s with EmptyString => false | String _ _ => true end.
Proof. destruct s; reflexivity. Qed.

Lemma SetStyle_spec (h : heap) (l : loc) (PM : Placemark) (name : string) :
  h !! l = Some (OPlacemark PM) ->
  Placemark_SetStyle (Addr l) name h =
    Ok tt (<[l := OPlacemark {| Placemark_name := Placemark_name PM;
                                Placemark_description := Placemark_description PM;
                                geometry := geometry PM;
                                style := if blank name then style PM else TrimSpace name |}]> h).
Proof.
  intros Hl. unfold Placemark_SetStyle, blank. rewrite nonempty_test.
  destruct (TrimSpace name) as [|c s].
  - unfold ret. f_equal. symmetry. apply insert_id. rewrite Hl. now destruct PM.
  - now rewrite (bind_ok _ _ _ _ _ (load_Placemark_at _ _ _ Hl)).
Qed.

Lemma SetStyles_spec (names : list string) :
  forall (h : heap) (l : loc) (PM : Placemark),
  h !! l = Some (OPlacemark PM) ->
  SetStyles (Addr l) names h =
    Ok tt (<[l := OPlacemark {| Placemark_name := Placemark_name PM;
                                Placemark_description := Placemark_description PM;
                                geometry := geometry PM;
                                style := last_style names (style PM) |}]> h).
Proof.
  induction names as [|n names IH]; intros h l PM Hl.
  - unfold ret. cbn. f_equal. symmetry. apply insert_id. rewrite Hl. now destruct PM.
  - cbn [SetStyles]. rewrite (bind_ok _ _ _ _ _ (SetStyle_spec _ _ _ n Hl)).
    rewrite (IH _ l _ (lookup_insert_eq _ _ _)). cbn [Placemark_name
      Placemark_description geometry style]. now rewrite insert_insert_eq.
Qed.

Lemma last_style_empty (names : list string) :
  forall init, last_style names init = EmptyString <->
               init = EmptyString /\ forallb blank names = true.
Proof.
  unfold last_style.
  induction names as [|n names IH]; intros init; cbn [fold_left forallb].
  - tauto.
  - rewrite IH. unfold blank at 1 3. destruct (TrimSpace n) as [|c s] eqn:E.
    + cbn [andb]. tauto.
    + cbn [andb]. split; [intros [[=] _]|intros [_ [=]]].
Qed.

(** C10. [NewPlacemark] stores whatever geometry it is given, the nil
    interface included, and [render] calls the geometry's [render] without a
    test.  A Placemark made with the nil geometry panics when rendered, as
    does one made with a nil pointer of any of the four types as geometry;
    and a rendering of a Placemark that returns has a geometry other than
    nil. *)
Theorem Placemark_nil_geometry (name desc : string) (h : heap) :
  (forall geom, exists l,
     h !! l = None /\
     NewPlacemark name desc geom h =
       Ok (Addr l) (<[l := OPlacemark {| Placemark_name := name;
                                         Placemark_description := desc;
                                         geometry := geom;
                                         style := EmptyString |}]> h)) /\
  (forall fuel,
     (pm <- NewPlacemark name desc NilIface ;; Placemark_render (render fuel) pm) h
       = Panic) /\
  (forall fuel t,
     (pm <- NewPlacemark name desc (Iface t NilPtr) ;;
      Placemark_render (render (S fuel)) pm) h = Panic) /\
  (forall fuel l PM s h',
     h !! l = Some (OPlacemark PM) ->
     Placemark_render (render fuel) (Addr l) h = Ok s h' ->
     geometry PM <> NilIface).
Proof.
  split; [|split; [|split]].
  - intros geom. apply alloc_fresh.
  - intros fuel. unfold NewPlacemark.
    destruct (alloc_fresh
      (OPlacemark {| Placemark_name := name; Placemark_description := desc;
                     geometry := NilIface; style := EmptyString |}) h) as (l & _ & Ha).
    rewrite (bind_ok _ _ _ _ _ Ha). unfold Placemark_render.
    rewrite (bind_ok _ _ _ _ _ (load_Placemark_at _ l _ (lookup_insert_eq _ _ _))).
    cbn [geometry]. destruct fuel; reflexivity.
  - intros fuel t. unfold NewPlacemark.
    destruct (alloc_fresh
      (OPlacemark {| Placemark_name := name; Placemark_description := desc;
                     geometry := Iface t NilPtr; style := EmptyString |}) h)
      as (l & _ & Ha).
    rewrite (bind_ok _ _ _ _ _ Ha). unfold Placemark_render.
    rewrite (bind_ok _ _ _ _ _ (load_Placemark_at _ l _ (lookup_insert_eq _ _ _))).
    cbn [geometry]. destruct t; reflexivity.
  - intros fuel l PM s h' Hl H Hnil. unfold Placemark_render in H.
    rewrite (bind_ok _ _ _ _ _ (load_Placemark_at _ _ _ Hl)) in H.
    rewrite Hnil in H. destruct fuel; discriminate H.
Qed.

Lemma Placemark_nil_geometry_witness :
  geometry {| Placemark_name := "Home"; Placemark_description := "Where we live";
              geometry := Iface TPoint (Addr 3%positive); style := EmptyString |}
    <> NilIface.
Proof.
  refine (proj2 (proj2 (proj2 (Placemark_nil_geometry "n" "d" example_heap)))
            1%nat 4%positive _ _ example_heap _ _).
  - reflexivity.
  - vm_compute. reflexivity.
Defined.

(** * Further properties of the package *)

(** ** Building a Document and a Folder *)

Lemma AddFolder_at (h : heap) (k l : loc) (K : KML) :
  h !! k = Some (OKML K) ->
  KML_AddFolder (Addr k) (Addr l) h =
    Ok tt (<[k := OKML {| folders := folders K ++ [Addr l] |}]> h).
Proof.
  intros Hk. unfold KML_AddFolder. cbn [ptr_is_nil negb].
  now rewrite (bind_ok _ _ _ _ _ (load_KML_at _ _ _ Hk)).
Qed.

Lemma AddFeature_at (h : heap) (f : loc) (F : Folder) (t : dyntype) (p : pointer) :
  h !! f = Some (OFolder F) ->
  Folder_AddFeature (Addr f) (Iface t p) h =
    Ok tt (<[f := OFolder {| Folder_name := Folder_name F;
                             Folder_description := Folder_description F;
                             features := features F ++ [Iface t p] |}]> h).
Proof.
  intros Hf. unfold Folder_AddFeature. cbn [iface_is_nil negb].
  now rewrite (bind_ok _ _ _ _ _ (load_Folder_at _ _ _ Hf)).
Qed.

Lemma AddFolders_from (fs : list pointer) :
  forall (h : heap) (k : loc) (K : KML),
  h !! k = Some (OKML K) ->
  AddFolders (Addr k) fs h =
    Ok tt (<[k := OKML {| folders := folders K ++ List.filter not_nil_ptr fs |}]> h).
Proof.
  induction fs as [|f fs IH]; intros h k K Hk.
  - cbn. rewrite app_nil_r. unfold ret. f_equal. symmetry. apply insert_id.
    rewrite Hk. now destruct K.
  - cbn [AddFolders List.filter]. destruct f as [|l].
    + cbn. change (bind (ret tt) (fun _ => AddFolders (Addr k) fs) h)
        with (AddFolders (Addr k) fs h). now apply IH.
    + cbn [ptr_is_nil negb not_nil_ptr].
      rewrite (bind_ok _ _ _ _ _ (AddFolder_at _ _ l _ Hk)).
      rewrite (IH _ k _ (lookup_insert_eq _ _ _)).
      cbn [folders]. rewrite insert_insert_eq, <- app_assoc. reflexivity.
Qed.

Lemma AddFeatures_from (xs : list renderable) :
  forall (h : heap) (f : loc) (F : Folder),
  h !! f = Some (OFolder F) ->
  AddFeatures (Addr f) xs h =
    Ok tt (<[f := OFolder {| Folder_name := Folder_name F;
                             Folder_description := Folder_description F;
                             features := features F ++ List.filter not_nil_iface xs |}]> h).
Proof.
  induction xs as [|x xs IH]; intros h f F Hf.
  - cbn. rewrite app_nil_r. unfold ret. f_equal. symmetry. apply insert_id.
    rewrite Hf. now destruct F.
  - cbn [AddFeatures List.filter]. destruct x as [|t p].
    + cbn. change (bind (ret tt) (fun _ => AddFeatures (Addr f) xs) h)
        with (AddFeatures (Addr f) xs h). now apply IH.
    + cbn [iface_is_nil negb not_nil_iface].
      rewrite (bind_ok _ _ _ _ _ (AddFeature_at _ _ _ t p Hf)).
      rewrite (IH _ f _ (lookup_insert_eq _ _ _)).
      cbn [Folder_name Folder_description features].
      rewrite insert_insert_eq, <- app_assoc. reflexivity.
Qed.

(** X1. A Document made by [NewKML] and filled by any calls of [AddFolder]
    holds the folders of these calls that are not nil, in the order of the
    calls, a folder given twice being held twice; nothing else in the heap
    changes. *)
Theorem NewKML_AddFolders (fs : list pointer) (h : heap) :
  exists k,
    h !! k = None /\
    (k <- NewKML ;; _ <- AddFolders k fs ;; ret k) h =
      Ok (Addr k) (<[k := OKML {| folders := List.filter not_nil_ptr fs |}]> h) /\
    Forall (fun p => p <> NilPtr) (List.filter not_nil_ptr fs).
Proof.
  unfold NewKML.
  destruct (alloc_fresh (OKML {| folders := [] |}) h) as (k & Hk & Ha).
  exists k. split; [exact Hk|]. split.
  - rewrite (bind_ok _ _ _ _ _ Ha).
    rewrite (bind_ok _ _ _ _ _ (AddFolders_from fs _ k _ (lookup_insert_eq _ _ _))).
    cbn [folders app]. unfold ret. now rewrite insert_insert_eq.
  - apply Forall_forall. intros p Hp. apply list_elem_of_In, filter_In in Hp as [_ Hp].
    now destruct p.
Qed.

(** X2. A Folder made by [NewFolder] and filled by any calls of [AddFeature]
    keeps its name and description and holds the features of these calls
    that are not the nil interface, in the order of the calls; so no feature
    of it is the nil interface. *)
Theorem NewFolder_AddFeatures (name desc : string) (xs : list renderable) (h : heap) :
  exists f,
    h !! f = None /\
    (f <- NewFolder name desc ;; _ <- AddFeatures f xs ;; ret f) h =
      Ok (Addr f) (<[f := OFolder {| Folder_name := name; Folder_description := desc;
                                     features := List.filter not_nil_iface xs |}]> h) /\
    Forall (fun x => x <> NilIface) (List.filter not_nil_iface xs).
Proof.
  unfold NewFolder.
  destruct (alloc_fresh (OFolder {| Folder_name := name; Folder_description := desc;
                                    features := [] |}) h) as (f & Hf & Ha).
  exists f. split; [exact Hf|]. split.
  - rewrite (bind_ok _ _ _ _ _ Ha).
    rewrite (bind_ok _ _ _ _ _ (AddFeatures_from xs _ f _ (lookup_insert_eq _ _ _))).
    cbn [Folder_name Folder_description features app]. unfold ret.
    now rewrite insert_insert_eq.
  - apply Forall_forall. intros x Hx. apply list_elem_of_In, filter_In in Hx as [_ Hx].
    now destruct x.
Qed.

(** ** The text of a Document and of a Folder *)

Lemma string_app_nil_r (s : string) : s +:+ EmptyString = s.
Proof.
  induction s as [|c s IH]; [reflexivity|].
  change (String c (s +:+ EmptyString) = String c s). now rewrite IH.
Qed.

Lemma foldM_concat {A} (g : A -> M string) (h : heap) (l : list A) (texts : list string) :
  Forall2 (fun a s => g a h = Ok s h) l texts ->
  forall b, foldM (fun acc a => s <- g a ;; ret (acc +:+ s)) l b h =
            Ok (b +:+ concat_str texts) h.
Proof.
  induction 1 as [|a t l texts Ha _ IH]; intros b; cbn [foldM concat_str].
  - unfold ret. now rewrite string_app_nil_r.
  - unfold bind at 1 2. rewrite Ha. unfold ret at 1. cbv beta iota.
    rewrite IH. now rewrite string_app_assoc.
Qed.

Lemma foldM_concat_inv {A} (g : A -> M string) (h : heap) (l : list A) :
  (forall a s h', g a h = Ok s h' -> h' = h) ->
  forall b r h',
    foldM (fun acc a => s <- g a ;; ret (acc +:+ s)) l b h = Ok r h' ->
    h' = h /\
    exists texts, Forall2 (fun a s => g a h = Ok s h) l texts /\
                  r = b +:+ concat_str texts.
Proof.
  intros Hg. induction l as [|a l IH]; intros b r h' H; cbn [foldM] in H.
  - injection H as <- <-. split; [reflexivity|]. exists [].
    split; [constructor|]. cbn. now rewrite string_app_nil_r.
  - apply bind_inv in H as (b1 & h1 & H1 & H2).
    apply bind_inv in H1 as (t & h2 & H3 & H4).
    pose proof (Hg _ _ _ H3) as ->. injection H4 as <- <-.
    destruct (IH _ _ _ H2) as (-> & texts & HF & ->).
    split; [reflexivity|]. exists (t :: texts). split; [now constructor|].
    cbn [concat_str]. now rewrite string_app_assoc.
Qed.

(** X3. The text of a Document is the two fixed first lines, then the texts
    of its folders in their order, then [</kml>]: [Render] returns exactly
    when every folder renders, and returns this text. *)
Theorem Render_concat (fuel : nat) (h : heap) (k : loc) (K : KML) (s : string) :
  h !! k = Some (OKML K) ->
  (Render fuel (Addr k) h = Ok s h <->
   exists texts,
     Forall2 (fun p t => Folder_render (render fuel) p h = Ok t h) (folders K) texts /\
     s = kml_header +:+ concat_str texts +:+ "</kml>" +:+ LF).
Proof.
  intros Hk. unfold Render, KML_Render.
  rewrite (bind_ok _ _ _ _ _ (load_KML_at _ _ _ Hk)). fold kml_header. split.
  - intros H. apply bind_inv in H as (r & h1 & H1 & H2).
    apply foldM_concat_inv in H1 as (-> & texts & HF & ->).
    + exists texts. split; [exact HF|]. injection H2 as <-.
      now rewrite string_app_assoc.
    + intros p t h' Hp. exact (Folder_render_pure _ (render_heap fuel) _ _ _ _ Hp).
  - intros (texts & HF & ->).
    rewrite (bind_ok _ _ _ _ _ (foldM_concat _ _ _ _ HF kml_header)).
    unfold ret. now rewrite string_app_assoc.
Qed.

Lemma Render_concat_witness :
  Render 2 (Addr 1%positive) example_heap = Ok example_text example_heap <->
  exists texts,
    Forall2 (fun p t => Folder_render (render 2) p example_heap = Ok t example_heap)
            [Addr 2%positive] texts /\
    example_text = kml_header +:+ concat_str texts +:+ "</kml>" +:+ LF.
Proof.
  apply (Render_concat 2 example_heap 1%positive {| folders := [Addr 2%positive] |}).
  reflexivity.
Defined.

(** X4. The text of a Folder is [<Folder>], its name and its description,
    then the texts of its features in their order, then [</Folder>]: the
    call returns exactly when every feature renders, and returns this
    text. *)
Theorem Folder_render_concat (fuel : nat) (h : heap) (f : loc) (F : Folder) (s : string) :
  h !! f = Some (OFolder F) ->
  (render (S fuel) (Iface TFolder (Addr f)) h = Ok s h <->
   exists texts,
     Forall2 (fun x t => render fuel x h = Ok t h) (features F) texts /\
     s = folder_header (Folder_name F) (Folder_description F) +:+
         concat_str texts +:+ "</Folder>" +:+ LF).
Proof.
  intros Hf. cbn [render]. unfold Folder_render.
  rewrite (bind_ok _ _ _ _ _ (load_Folder_at _ _ _ Hf)).
  fold (folder_header (Folder_name F) (Folder_description F)). split.
  - intros H. apply bind_inv in H as (r & h1 & H1 & H2).
    apply foldM_concat_inv in H1 as (-> & texts & HF & ->).
    + exists texts. split; [exact HF|]. injection H2 as <-.
      now rewrite string_app_assoc.
    + intros x t h' Hx. exact (render_heap fuel _ _ _ _ Hx).
  - intros (texts & HF & ->).
    rewrite (bind_ok _ _ _ _ _
      (foldM_concat _ _ _ _ HF (folder_header (Folder_name F) (Folder_description F)))).
    unfold ret. now rewrite string_app_assoc.
Qed.

Lemma Folder_render_concat_witness :
  let pm_text :=
    "<Placemark>" +:+ LF +:+ "<name>Home</name>" +:+ LF +:+
    "<description>Where we live</description>" +:+ LF +:+
    "<visibility>1</visibility>" +:+ LF +:+
    "<Point>" +:+ LF +:+ "<extrude>0</extrude>" +:+ LF +:+
    "<altitudeMode>clampToGround</altitudeMode>" +:+ LF +:+
    "<coordinates>20.000000,10.000000,0.000000</coordinates>" +:+ LF +:+
    "</Point>" +:+ LF +:+ "</Placemark>" +:+ LF in
  render 3 (Iface TFolder (Addr 2%positive)) example_heap =
    Ok (folder_header "Places" "All places" +:+ concat_str [pm_text] +:+
        "</Folder>" +:+ LF) example_heap.
Proof.
  intros pm_text.
  apply (proj2 (Folder_render_concat 2 example_heap 2%positive
                  {| Folder_name := "Places"; Folder_description := "All places";
                     features := [Iface TPlacemark (Addr 4%positive)] |} _ eq_refl)).
  exists [pm_text]. split; [|reflexivity].
  constructor; [vm_compute; reflexivity|constructor].
Defined.

(** ** When rendering returns *)

Lemma Forall2_exists_l {A B} (P : A -> B -> Prop) (l : list A) (l' : list B) :
  Forall2 P l l' -> Forall (fun a => exists b, P a b) l.
Proof. induction 1; constructor; eauto. Qed.

(** X5. A call of [render] with nested calls up to depth [d] returns
    exactly on a tree of depth at most [d]: every pointer reached holds an
    object of its type, no feature and no geometry reached is nil, and no
    folder is reached from itself. *)
Theorem render_returns_iff_tree (h : heap) (d : nat) (r : renderable) :
  (exists s, render d r h = Ok s h) <-> tree h d r.
Proof.
  split; [|apply render_total].
  revert r. induction d as [|d IH]; intros [|t p] (s & H); try discriminate H.
  destruct t; cbn [render] in H.
  - unfold Folder_render in H. apply bind_inv in H as (F & h1 & H1 & H2).
    apply load_Folder_inv in H1 as (l & -> & Hl & ->).
    apply bind_inv in H2 as (r & h2 & H2 & _).
    apply foldM_concat_inv in H2 as (_ & texts & HF & _);
      [|intros x t h' Hx; exact (render_heap d _ _ _ _ Hx)].
    apply (tree_Folder h d l F Hl).
    apply Forall2_exists_l in HF. rewrite Forall_forall in HF |- *.
    intros x Hx. apply IH. exact (HF x Hx).
  - unfold Style_render in H. apply bind_inv in H as (S & h1 & H1 & _).
    apply load_Style_inv in H1 as (l & -> & Hl & _). exact (tree_Style h d l S Hl).
  - unfold Point_render in H. apply bind_inv in H as (P & h1 & H1 & _).
    apply load_Point_inv in H1 as (l & -> & Hl & _). exact (tree_Point h d l P Hl).
  - unfold Placemark_render in H. apply bind_inv in H as (PM & h1 & H1 & H2).
    apply load_Placemark_inv in H1 as (l & -> & Hl & ->).
    apply bind_inv in H2 as (g & h2 & H2 & _).
    pose proof (render_heap d _ _ _ _ H2) as ->.
    apply (tree_Placemark h d l PM Hl). apply IH. now exists g.
Qed.

(** X6. A Folder that holds itself as a feature never renders: no bound on
    the depth of calls makes [render] return.  After [f.AddFeature(f)] on a
    new Folder the call runs out of every bound. *)
Theorem self_containing_folder_never_renders (h : heap) (fuel : nat) :
  (forall l F s h',
     h !! l = Some (OFolder F) ->
     In (Iface TFolder (Addr l)) (features F) ->
     render fuel (Iface TFolder (Addr l)) h <> Ok s h') /\
  (forall name desc,
     (f <- NewFolder name desc ;;
      _ <- Folder_AddFeature f (Iface TFolder f) ;;
      render fuel (Iface TFolder f)) h = Timeout).
Proof.
  split.
  - induction fuel as [|n IH]; intros l F s h' Hl Hin H; [discriminate H|].
    cbn [render] in H. unfold Folder_render in H.
    rewrite (bind_ok _ _ _ _ _ (load_Folder_at _ _ _ Hl)) in H.
    apply bind_inv in H as (r & h2 & H2 & _).
    apply foldM_concat_inv in H2 as (_ & texts & HF & _);
      [|intros x t h0 Hx; exact (render_heap n _ _ _ _ Hx)].
    apply Forall2_exists_l in HF. rewrite Forall_forall in HF.
    destruct (HF _ ltac:(apply list_elem_of_In; exact Hin)) as (t & Ht).
    exact (IH l F t h Hl Hin Ht).
  - intros name desc. unfold NewFolder.
    destruct (alloc_fresh (OFolder {| Folder_name := name; Folder_description := desc;
                                      features := [] |}) h) as (l & _ & Ha).
    rewrite (bind_ok _ _ _ _ _ Ha).
    rewrite (bind_ok _ _ _ _ _
      (AddFeature_at _ l _ TFolder (Addr l) (lookup_insert_eq _ _ _))).
    cbn [Folder_name Folder_description features app]. rewrite insert_insert_eq.
    induction fuel as [|n IH]; [reflexivity|].
    cbn [render]. unfold Folder_render.
    rewrite (bind_ok _ _ _ _ _ (load_Folder_at _ l _ (lookup_insert_eq _ _ _))).
    cbn [features foldM]. unfold bind at 1 2 3. now rewrite IH.
Qed.

Lemma self_containing_folder_never_renders_witness :
  let F := {| Folder_name := "a"; Folder_description := "b";
              features := [Iface TStyle NilPtr; Iface TFolder (Addr 1%positive)] |} in
  let h : heap := <[1%positive := OFolder F]> ∅ in
  render 5 (Iface TFolder (Addr 1%positive)) h <> Ok "x" h.
Proof.
  intros F h.
  apply (proj1 (self_containing_folder_never_renders h 5) 1%positive F "x" h).
  - reflexivity.
  - right. left. reflexivity.
Defined.

(** ** Rendering and the rest of the heap *)

Lemma load_weaken (h h' : heap) p o :
  h ⊆ h' -> load p h = Ok o h -> load p h' = Ok o h'.
Proof.
  intros Hsub H. apply load_inv in H as (l & -> & Hl & _).
  apply load_at. exact (lookup_weaken _ _ _ _ Hl Hsub).
Qed.

Lemma foldM_frame {A} (g : A -> M string) (h h' : heap) (l : list A) :
  (forall a s h0, g a h = Ok s h0 -> h0 = h /\ g a h' = Ok s h') ->
  forall b r h0,
    foldM (fun acc a => s <- g a ;; ret (acc +:+ s)) l b h = Ok r h0 ->
    foldM (fun acc a => s <- g a ;; ret (acc +:+ s)) l b h' = Ok r h'.
Proof.
  intros Hg. induction l as [|a l IH]; intros b r h0 H; cbn [foldM] in *.
  - now injection H as <- _.
  - apply bind_inv in H as (b1 & h1 & H1 & H2).
    apply bind_inv in H1 as (t & h2 & H3 & H4).
    destruct (Hg _ _ _ H3) as (-> & H3'). injection H4 as <- <-.
    unfold bind at 1 2. rewrite H3'. unfold ret at 1. cbv beta iota.
    exact (IH _ _ _ H2).
Qed.

Lemma Folder_render_frame (rec : renderable -> M string) (h h' : heap) :
  h ⊆ h' ->
  (forall x h1 s h2, rec x h1 = Ok s h2 -> h2 = h1) ->
  (forall x s, rec x h = Ok s h -> rec x h' = Ok s h') ->
  forall p s h0, Folder_render rec p h = Ok s h0 ->
                 h0 = h /\ Folder_render rec p h' = Ok s h'.
Proof.
  intros Hsub Hpure Hrec p s h0 H.
  pose proof (Folder_render_pure _ Hpure _ _ _ _ H) as ->.
  split; [reflexivity|].
  unfold Folder_render in *. apply bind_inv in H as (F & h1 & H1 & H2).
  apply load_Folder_inv in H1 as (l & -> & Hl & ->).
  rewrite (bind_ok _ _ _ _ _ (load_Folder_at _ _ _ (lookup_weaken _ _ _ _ Hl Hsub))).
  apply bind_inv in H2 as (r & h2 & H2 & H3).
  eapply foldM_frame in H2.
  - rewrite (bind_ok _ _ _ _ _ H2). now injection H3 as <- _.
  - intros a t h1 Ha. pose proof (Hpure _ _ _ _ Ha) as ->. split; [reflexivity|].
    now apply Hrec.
Qed.

Lemma render_frame_aux (h h' : heap) (fuel : nat) :
  h ⊆ h' ->
  forall r s h0, render fuel r h = Ok s h0 -> h0 = h /\ render fuel r h' = Ok s h'.
Proof.
  intros Hsub. induction fuel as [|n IH]; intros [|t p] s h0 H; try discriminate H.
  destruct t; cbn [render] in *.
  - apply (Folder_render_frame _ h h' Hsub (render_heap n)); [|exact H].
    intros x t Hx. exact (proj2 (IH _ _ _ Hx)).
  - pose proof (Style_render_pure _ _ _ _ H) as ->. split; [reflexivity|].
    unfold Style_render in *. apply bind_inv in H as (S & h1 & H1 & H2).
    apply load_Style_inv in H1 as (l & -> & Hl & ->).
    rewrite (bind_ok _ _ _ _ _ (load_Style_at _ _ _ (lookup_weaken _ _ _ _ Hl Hsub))).
    now injection H2 as <-.
  - pose proof (Point_render_pure _ _ _ _ H) as ->. split; [reflexivity|].
    unfold Point_render in *. apply bind_inv in H as (P & h1 & H1 & H2).
    apply load_Point_inv in H1 as (l & -> & Hl & ->).
    rewrite (bind_ok _ _ _ _ _ (load_Point_at _ _ _ (lookup_weaken _ _ _ _ Hl Hsub))).
    now injection H2 as <-.
  - pose proof (Placemark_render_pure _ (render_heap n) _ _ _ _ H) as ->.
    split; [reflexivity|].
    unfold Placemark_render in *. apply bind_inv in H as (PM & h1 & H1 & H2).
    apply load_Placemark_inv in H1 as (l & -> & Hl & ->).
    rewrite (bind_ok _ _ _ _ _
      (load_Placemark_at _ _ _ (lookup_weaken _ _ _ _ Hl Hsub))).
    apply bind_inv in H2 as (g & h2 & H2 & H3).
    destruct (IH _ _ _ H2) as (-> & H2'). rewrite (bind_ok _ _ _ _ _ H2').
    now injection H3 as <-.
Qed.

(** X7. Rendering reads only the objects it reaches: a call of [render] or
    [Render] that returns on a heap returns the same text on every heap that
    holds these objects and more; every allocation, and so every
    constructor of the package, gives such a heap. *)
Theorem render_frame (h h' : heap) (fuel : nat) :
  h ⊆ h' ->
  (forall r s, render fuel r h = Ok s h -> render fuel r h' = Ok s h') /\
  (forall k s, Render fuel k h = Ok s h -> Render fuel k h' = Ok s h') /\
  (forall o, exists l, alloc o h = Ok (Addr l) (<[l := o]> h) /\ h ⊆ <[l := o]> h).
Proof.
  intros Hsub. split; [|split].
  - intros r s H. exact (proj2 (render_frame_aux h h' fuel Hsub _ _ _ H)).
  - intros k s H. unfold Render, KML_Render in *.
    apply bind_inv in H as (K & h1 & H1 & H2).
    apply load_KML_inv in H1 as (l & -> & Hl & ->).
    rewrite (bind_ok _ _ _ _ _ (load_KML_at _ _ _ (lookup_weaken _ _ _ _ Hl Hsub))).
    apply bind_inv in H2 as (r & h2 & H2 & H3).
    eapply foldM_frame in H2.
    + rewrite (bind_ok _ _ _ _ _ H2). now injection H3 as <- _.
    + apply (Folder_render_frame _ h h' Hsub (render_heap fuel)).
      intros x t Hx. exact (proj2 (render_frame_aux h h' fuel Hsub _ _ _ Hx)).
  - intros o. destruct (alloc_fresh o h) as (l & Hl & Ha).
    exists l. split; [exact Ha|]. now apply insert_subseteq.
Qed.

Lemma render_frame_witness :
  Render 2 (Addr 1%positive)
    (<[9%positive := OStyle {| Style_name := "s"; alpha := 0; red := 0; green := 0;
                               blue := 0; iconURL := "u"; iconScale := F0; fill := 0 |}]>
       example_heap)
  = Ok example_text
    (<[9%positive := OStyle {| Style_name := "s"; alpha := 0; red := 0; green := 0;
                               blue := 0; iconURL := "u"; iconScale := F0; fill := 0 |}]>
       example_heap).
Proof.
  refine (proj1 (proj2 (render_frame example_heap _ 2 _)) (Addr 1%positive) example_text _).
  - apply insert_subseteq. reflexivity.
  - vm_compute. reflexivity.
Defined.

(** ** Style: the setters *)

Lemma SetIconURL_at (h : heap) (l : loc) (S : Style) (url : string) :
  h !! l = Some (OStyle S) ->
  Style_SetIconURL (Addr l) url h =
    Ok tt (<[l := OStyle {| Style_name := Style_name S; alpha := alpha S; red := red S;
                            green := green S; blue := blue S;
                            iconURL := if blank url then iconURL S else TrimSpace url;
                            iconScale := iconScale S; fill := fill S |}]> h).
Proof.
  intros Hl. unfold Style_SetIconURL, blank. rewrite nonempty_test.
  destruct (TrimSpace url) as [|c s].
  - unfold ret. f_equal. symmetry. apply insert_id. rewrite Hl. now destruct S.
  - now rewrite (bind_ok _ _ _ _ _ (load_Style_at _ _ _ Hl)).
Qed.

Lemma SetIconScale_at (h : heap) (l : loc) (S : Style) (x : float64) :
  h !! l = Some (OStyle S) ->
  Style_SetIconScale (Addr l) x h =
    Ok tt (<[l := OStyle {| Style_name := Style_name S; alpha := alpha S; red := red S;
                            green := green S; blue := blue S; iconURL := iconURL S;
                            iconScale := if in_range F0 F100 x then x else iconScale S;
                            fill := fill S |}]> h).
Proof.
  intros Hl. unfold Style_SetIconScale.
  change (fge x F0 && fle x F100) with (in_range F0 F100 x).
  destruct (in_range F0 F100 x).
  - now rewrite (bind_ok _ _ _ _ _ (load_Style_at _ _ _ Hl)).
  - unfold ret. f_equal. symmetry. apply insert_id. rewrite Hl. now destruct S.
Qed.

Lemma SetPolygonFill_at (h : heap) (l : loc) (S : Style) (b : bool) :
  h !! l = Some (OStyle S) ->
  Style_SetPolygonFill (Addr l) b h =
    Ok tt (<[l := OStyle {| Style_name := Style_name S; alpha := alpha S; red := red S;
                            green := green S; blue := blue S; iconURL := iconURL S;
                            iconScale := iconScale S;
                            fill := if b then 1 else 0 |}]> h).
Proof.
  intros Hl. unfold Style_SetPolygonFill.
  now rewrite (bind_ok _ _ _ _ _ (load_Style_at _ _ _ Hl)).
Qed.

Lemma do_style_calls_at (cs : list style_call) :
  forall (h : heap) (l : loc) (S : Style),
  h !! l = Some (OStyle S) ->
  do_style_calls (Addr l) cs h =
    Ok tt (<[l := OStyle {| Style_name := Style_name S; alpha := alpha S; red := red S;
                            green := green S; blue := blue S;
                            iconURL := final_url cs (iconURL S);
                            iconScale := final_scale cs (iconScale S);
                            fill := final_fill cs (fill S) |}]> h).
Proof.
  induction cs as [|c cs IH]; intros h l S Hl.
  - cbn. unfold ret. f_equal. symmetry. apply insert_id. rewrite Hl. now destruct S.
  - cbn [do_style_calls]. destruct c as [u|x|b]; cbn [do_style_call].
    + rewrite (bind_ok _ _ _ _ _ (SetIconURL_at _ _ _ u Hl)).
      rewrite (IH _ l _ (lookup_insert_eq _ _ _)). now rewrite insert_insert_eq.
    + rewrite (bind_ok _ _ _ _ _ (SetIconScale_at _ _ _ x Hl)).
      rewrite (IH _ l _ (lookup_insert_eq _ _ _)). now rewrite insert_insert_eq.
    + rewrite (bind_ok _ _ _ _ _ (SetPolygonFill_at _ _ _ b Hl)).
      rewrite (IH _ l _ (lookup_insert_eq _ _ _)). now rewrite insert_insert_eq.
Qed.

Lemma final_url_nonempty (cs : list style_call) :
  forall init, init <> EmptyString -> final_url cs init <> EmptyString.
Proof.
  unfold final_url. induction cs as [|c cs IH]; intros init Hi; [exact Hi|].
  cbn [fold_left]. apply IH. destruct c as [u| |]; try exact Hi.
  unfold blank. destruct (TrimSpace u); [exact Hi|discriminate].
Qed.

Lemma final_scale_in_range (cs : list style_call) :
  forall init, in_range F0 F100 init = true -> in_range F0 F100 (final_scale cs init) = true.
Proof.
  unfold final_scale. induction cs as [|c cs IH]; intros init Hi; [exact Hi|].
  cbn [fold_left]. apply IH. destruct c as [|x|]; try exact Hi.
  destruct (in_range F0 F100 x) eqn:E; [exact E|exact Hi].
Qed.

Lemma final_fill_flag (cs : list style_call) :
  forall init, init = 0 \/ init = 1 -> final_fill cs init = 0 \/ final_fill cs init = 1.
Proof.
  unfold final_fill. induction cs as [|c cs IH]; intros init Hi; [exact Hi|].
  cbn [fold_left]. apply IH. destruct c as [| |b]; try exact Hi.
  destruct b; [now right|now left].
Qed.

(** X8. The setters of a Style keep its name and its four colour channels,
    and keep three facts true once they hold: the icon scale lies in
    [0, 100], the icon URL is not empty, the fill flag is 0 or 1.  Any list
    of calls of [SetIconURL], [SetIconScale] and [SetPolygonFill] on such a
    Style returns, and changes no other object. *)
Theorem Style_setters_keep (cs : list style_call) (h : heap) (l : loc) (S : Style) :
  h !! l = Some (OStyle S) -> Style_inv S ->
  exists S',
    do_style_calls (Addr l) cs h = Ok tt (<[l := OStyle S']> h) /\
    Style_name S' = Style_name S /\
    alpha S' = alpha S /\ red S' = red S /\ green S' = green S /\ blue S' = blue S /\
    Style_inv S'.
Proof.
  intros Hl (Hs & Hu & Hf). eexists. split; [exact (do_style_calls_at cs h l S Hl)|].
  cbn [Style_name alpha red green blue]. repeat (split; [reflexivity|]).
  unfold Style_inv. cbn [iconScale iconURL fill].
  split; [now apply final_scale_in_range|].
  split; [now apply final_url_nonempty|now apply final_fill_flag].
Qed.

Lemma Style_setters_keep_witness :
  let S := {| Style_name := "s"; alpha := 255; red := 1; green := 2; blue := 3;
              iconURL := default_iconURL; iconScale := F1_1; fill := 1 |} in
  let h : heap := <[1%positive := OStyle S]> ∅ in
  exists S',
    do_style_calls (Addr 1%positive)
      [CallSetIconScale F100_1; CallSetIconURL "  "; CallSetPolygonFill false] h
      = Ok tt (<[1%positive := OStyle S']> h) /\
    Style_name S' = "s" /\
    alpha S' = 255 /\ red S' = 1 /\ green S' = 2 /\ blue S' = 3 /\
    Style_inv S'.
Proof.
  intros S h. apply (Style_setters_keep _ h 1%positive S).
  - reflexivity.
  - unfold Style_inv. split; [reflexivity|]. split; [discriminate|now right].
Defined.

(** X9. A Style made by [NewStyle] and changed by any list of setter calls
    holds: the name and the colour given to [NewStyle]; as icon URL the
    trimmed argument of the last [SetIconURL] that was not blank, or the
    built-in pushpin; as icon scale the argument of the last [SetIconScale]
    that was in [0, 100], or 1.1; as fill flag the argument of the last
    [SetPolygonFill], or 1.  The three setters do not interfere. *)
Theorem NewStyle_then_setters (name : string) (a r g b : Z) (cs : list style_call)
    (h : heap) :
  exists l,
    h !! l = None /\
    (s <- NewStyle name a r g b ;; _ <- do_style_calls s cs ;; ret s) h =
      Ok (Addr l)
         (<[l := OStyle {| Style_name := name; alpha := a; red := r; green := g;
                           blue := b;
                           iconURL := final_url cs default_iconURL;
                           iconScale := final_scale cs F1_1;
                           fill := final_fill cs 1 |}]> h).
Proof.
  unfold NewStyle. fold default_iconURL.
  destruct (alloc_fresh
    (OStyle {| Style_name := name; alpha := a; red := r; green := g; blue := b;
               iconURL := default_iconURL; iconScale := F1_1; fill := 1 |}) h)
    as (l & Hl & Ha).
  exists l. split; [exact Hl|].
  rewrite (bind_ok _ _ _ _ _ Ha).
  rewrite (bind_ok _ _ _ _ _ (do_style_calls_at cs _ l _ (lookup_insert_eq _ _ _))).
  cbn [Style_name alpha red green blue iconURL iconScale fill].
  unfold ret. now rewrite insert_insert_eq.
Qed.

Lemma Style_render_at (h : heap) (l : loc) (S : Style) :
  h !! l = Some (OStyle S) ->
  Style_render (Addr l) h =
    Ok (Style_before_fill S +:+ fmt_d (fill S) +:+ Style_after_fill) h.
Proof.
  intros Hl. unfold Style_render.
  rewrite (bind_ok _ _ _ _ _ (load_Style_at _ _ _ Hl)).
  unfold ret, Style_before_fill, Style_after_fill, color_digits. f_equal.
  repeat rewrite string_app_assoc. reflexivity.
Qed.

(** X10. [SetPolygonFill] decides the fill flag of the text, whatever the
    flag was: after [SetPolygonFill(true)] the Style renders with
    [<fill>1</fill>], after [SetPolygonFill(false)] with [<fill>0</fill>],
    and the text before and after the flag is the one rendered before the
    call. *)
Theorem SetPolygonFill_render (h : heap) (l : loc) (S : Style) (b : bool) :
  h !! l = Some (OStyle S) ->
  exists h',
    Style_render (Addr l) h =
      Ok (Style_before_fill S +:+ fmt_d (fill S) +:+ Style_after_fill) h /\
    Style_SetPolygonFill (Addr l) b h = Ok tt h' /\
    Style_render (Addr l) h' =
      Ok (Style_before_fill S +:+ (if b then "1" else "0") +:+ Style_after_fill) h'.
Proof.
  intros Hl. eexists. split; [exact (Style_render_at h l S Hl)|].
  split; [exact (SetPolygonFill_at h l S b Hl)|].
  rewrite (Style_render_at _ l _ (lookup_insert_eq _ _ _)).
  cbn [fill]. destruct b; reflexivity.
Qed.

Lemma SetPolygonFill_render_witness :
  let S := {| Style_name := "s"; alpha := 255; red := 1; green := 2; blue := 3;
              iconURL := default_iconURL; iconScale := F1_1; fill := 1 |} in
  let h : heap := <[1%positive := OStyle S]> ∅ in
  exists h',
    Style_render (Addr 1%positive) h =
      Ok (Style_before_fill S +:+ "1" +:+ Style_after_fill) h /\
    Style_SetPolygonFill (Addr 1%positive) false h = Ok tt h' /\
    Style_render (Addr 1%positive) h' =
      Ok (Style_before_fill S +:+ "0" +:+ Style_after_fill) h'.
Proof.
  intros S h. apply (SetPolygonFill_render h 1%positive S false). reflexivity.
Defined.

(** ** Point: what a returned Point holds *)

(** X11. [NewPoint] always returns, with either a Point and the nil error or
    the nil pointer and an error, never both and never neither.  A Point it
    returns is a new object that holds a valid latitude, a valid longitude
    and a finite altitude; when it returns an error the heap is as it
    was. *)
Theorem NewPoint_result (lat lon alt : float64) (h : heap) :
  exists p err h',
    NewPoint lat lon alt h = Ok (p, err) h' /\
    (p = NilPtr <-> err <> None) /\
    (p = NilPtr -> h' = h) /\
    (forall l, p = Addr l ->
       h !! l = None /\
       exists P, h' = <[l := OPoint P]> h /\
                 valid_lat (Lat P) = true /\ valid_lon (Lon P) = true /\
                 finite (Alt P) = true).
Proof.
  rewrite NewPoint_cases.
  destruct (finite lat) eqn:Flat; cbn [negb];
    [|do 3 eexists; split; [reflexivity|]; repeat split; try discriminate; auto].
  destruct (in_range (neg F90) F90 lat) eqn:Rlat; cbn [negb];
    [|do 3 eexists; split; [reflexivity|]; repeat split; try discriminate; auto].
  destruct (finite lon) eqn:Flon; cbn [negb];
    [|do 3 eexists; split; [reflexivity|]; repeat split; try discriminate; auto].
  destruct (in_range (neg F180) F180 lon) eqn:Rlon; cbn [negb];
    [|do 3 eexists; split; [reflexivity|]; repeat split; try discriminate; auto].
  do 3 eexists. split; [reflexivity|]. split; [|split].
  - split; [discriminate|intros H; now contradiction H].
  - discriminate.
  - intros l [= <-]. split; [apply not_elem_of_dom, is_fresh|].
    eexists. split; [reflexivity|]. cbn [Lat Lon Alt].
    unfold valid_lat, valid_lon. rewrite Flat, Rlat, Flon, Rlon.
    repeat split. unfold finite. destruct alt; reflexivity.
Qed.

(** ** Children are held by reference *)

(** X12. A Folder holds its features by reference, so the order between
    adding a feature to a Folder and setting the style of a Placemark does
    not matter.  Both orders return and leave the same heap: the Folder
    holds the feature after the ones it had (unless the feature is the nil
    interface), the Placemark holds the trimmed name (unless the name is
    blank), and every other object is as it was. *)
Theorem AddFeature_SetStyle_commute (h : heap) (f pm : loc) (F : Folder)
    (PM : Placemark) (x : renderable) (name : string) :
  h !! f = Some (OFolder F) -> h !! pm = Some (OPlacemark PM) ->
  exists h',
    (_ <- Folder_AddFeature (Addr f) x ;; Placemark_SetStyle (Addr pm) name) h
      = Ok tt h' /\
    (_ <- Placemark_SetStyle (Addr pm) name ;; Folder_AddFeature (Addr f) x) h
      = Ok tt h' /\
    h' !! f = Some (OFolder {| Folder_name := Folder_name F;
                               Folder_description := Folder_description F;
                               features := features F ++ List.filter not_nil_iface [x] |}) /\
    h' !! pm = Some (OPlacemark {| Placemark_name := Placemark_name PM;
                                   Placemark_description := Placemark_description PM;
                                   geometry := geometry PM;
                                   style := if blank name then style PM
                                            else TrimSpace name |}) /\
    (forall l, l <> f -> l <> pm -> h' !! l = h !! l).
Proof.
  intros Hf Hpm.
  assert (Hne : f <> pm) by (intros ->; rewrite Hf in Hpm; discriminate).
  set (PM' := {| Placemark_name := Placemark_name PM;
                 Placemark_description := Placemark_description PM;
                 geometry := geometry PM;
                 style := if blank name then style PM else TrimSpace name |}).
  set (F' := {| Folder_name := Folder_name F;
                Folder_description := Folder_description F;
                features := features F ++ List.filter not_nil_iface [x] |}).
  exists (<[f := OFolder F']> (<[pm := OPlacemark PM']> h)).
  assert (Hf1 : (<[pm := OPlacemark PM']> h) !! f = Some (OFolder F))
    by (now rewrite lookup_insert_ne).
  assert (E2 : (_ <- Placemark_SetStyle (Addr pm) name ;;
                Folder_AddFeature (Addr f) x) h
               = Ok tt (<[f := OFolder F']> (<[pm := OPlacemark PM']> h))).
  { rewrite (bind_ok _ _ _ _ _ (SetStyle_spec _ _ _ name Hpm)). fold PM'.
    destruct x as [|t p].
    - unfold Folder_AddFeature, ret, F'. cbn [iface_is_nil negb List.filter not_nil_iface].
      rewrite app_nil_r. f_equal. symmetry. apply insert_id. rewrite Hf1. now destruct F.
    - exact (AddFeature_at _ _ _ t p Hf1). }
  split; [|split; [exact E2|split; [|split]]].
  - destruct x as [|t p].
    + change (Folder_AddFeature (Addr f) NilIface) with (@ret unit tt).
      change (bind (ret tt) (fun _ => Placemark_SetStyle (Addr pm) name) h)
        with (Placemark_SetStyle (Addr pm) name h).
      rewrite (SetStyle_spec _ _ _ name Hpm). fold PM'. f_equal.
      unfold F'. cbn [List.filter not_nil_iface iface_is_nil negb]. rewrite app_nil_r.
      symmetry. apply insert_id. rewrite Hf1. now destruct F.
    + rewrite (bind_ok _ _ _ _ _ (AddFeature_at _ _ _ t p Hf)).
      rewrite (SetStyle_spec (<[f := _]> h) pm PM name)
        by (now rewrite lookup_insert_ne).
      fold PM'. f_equal. now apply insert_insert_ne.
  - apply lookup_insert_eq.
  - rewrite lookup_insert_ne by exact Hne. apply lookup_insert_eq.
  - intros l N1 N2. now rewrite !lookup_insert_ne by congruence.
Qed.

Lemma AddFeature_SetStyle_commute_witness :
  exists h',
    (_ <- Folder_AddFeature (Addr 2%positive) (Iface TPlacemark (Addr 4%positive)) ;;
     Placemark_SetStyle (Addr 4%positive) " red ") example_heap = Ok tt h' /\
    (_ <- Placemark_SetStyle (Addr 4%positive) " red " ;;
     Folder_AddFeature (Addr 2%positive) (Iface TPlacemark (Addr 4%positive))) example_heap
      = Ok tt h' /\
    h' !! 2%positive =
      Some (OFolder {| Folder_name := "Places"; Folder_description := "All places";
                       features := [Iface TPlacemark (Addr 4%positive);
                                    Iface TPlacemark (Addr 4%positive)] |}) /\
    h' !! 4%positive =
      Some (OPlacemark {| Placemark_name := "Home";
                          Placemark_description := "Where we live";
                          geometry := Iface TPoint (Addr 3%positive);
                          style := "red" |}) /\
    (forall l, l <> 2%positive -> l <> 4%positive -> h' !! l = example_heap !! l).
Proof.
  apply (AddFeature_SetStyle_commute example_heap 2%positive 4%positive
           {| Folder_name := "Places"; Folder_description := "All places";
              features := [Iface TPlacemark (Addr 4%positive)] |}
           {| Placemark_name := "Home"; Placemark_description := "Where we live";
              geometry := Iface TPoint (Addr 3%positive); style := EmptyString |}
           (Iface TPlacemark (Addr 4%positive)) " red ");
    reflexivity.
Defined.

(** ** Empty containers *)

(** X13. A new Document renders to its two first lines and [</kml>], and a
    new Folder to [<Folder>], its name, its description and [</Folder>],
    with the name and the description as they were given, unescaped.  The
    Document needs no nested call at all. *)
Theorem empty_containers_render (name desc : string) (fuel : nat) (h : heap) :
  (exists k, (k <- NewKML ;; Render fuel k) h =
             Ok (kml_header +:+ "</kml>" +:+ LF) (<[k := OKML {| folders := [] |}]> h)) /\
  (exists f, (f <- NewFolder name desc ;; render (S fuel) (Iface TFolder f)) h =
             Ok (folder_header name desc +:+ "</Folder>" +:+ LF)
                (<[f := OFolder {| Folder_name := name; Folder_description := desc;
                                   features := [] |}]> h)).
Proof.
  split.
  - unfold NewKML.
    destruct (alloc_fresh (OKML {| folders := [] |}) h) as (k & _ & Ha).
    exists k. rewrite (bind_ok _ _ _ _ _ Ha). unfold Render, KML_Render.
    rewrite (bind_ok _ _ _ _ _ (load_KML_at _ k _ (lookup_insert_eq _ _ _))).
    reflexivity.
  - unfold NewFolder.
    destruct (alloc_fresh (OFolder {| Folder_name := name; Folder_description := desc;
                                      features := [] |}) h) as (f & _ & Ha).
    exists f. rewrite (bind_ok _ _ _ _ _ Ha). cbn [render]. unfold Folder_render.
    rewrite (bind_ok _ _ _ _ _ (load_Folder_at _ f _ (lookup_insert_eq _ _ _))).
    cbn [features foldM Folder_name Folder_description]. unfold bind, ret, folder_header.
    f_equal; repeat rewrite string_app_assoc; reflexivity.
Qed.

(** ** From the constructors to the text *)

Lemma bind_assoc {A B C} (m : M A) (k1 : A -> M B) (k2 : B -> M C) (h : heap) :
  bind (bind m k1) k2 h = bind m (fun a => bind (k1 a) k2) h.
Proof. unfold bind. now destruct (m h). Qed.

Lemma Render_one_placemark (n : nat) (h : heap) (k f pm : loc) (g : pointer)
    (fname fdesc pname pdesc : string) :
  h !! k = Some (OKML {| folders := [Addr f] |}) ->
  h !! f = Some (OFolder {| Folder_name := fname; Folder_description := fdesc;
                            features := [Iface TPlacemark (Addr pm)] |}) ->
  h !! pm = Some (OPlacemark {| Placemark_name := pname; Placemark_description := pdesc;
                                geometry := Iface TPoint g; style := EmptyString |}) ->
  Render (S (S n)) (Addr k) h =
    match Point_render g h with
    | Ok t _ =>
        Ok (kml_header +:+ folder_header fname fdesc +:+
            "<Placemark>" +:+ LF +:+
            "<name>" +:+ pname +:+ "</name>" +:+ LF +:+
            "<description>" +:+ pdesc +:+ "</description>" +:+ LF +:+
            "<visibility>1</visibility>" +:+ LF +:+
            t +:+ "</Placemark>" +:+ LF +:+ "</Folder>" +:+ LF +:+ "</kml>" +:+ LF) h
    | Panic => Panic
    | Timeout => Timeout
    | Wild => Wild
    end.
Proof.
  intros Hk Hf Hpm. unfold Render, KML_Render.
  rewrite (bind_ok _ _ _ _ _ (load_KML_at _ _ _ Hk)). fold kml_header.
  cbn [folders foldM]. unfold Folder_render at 1.
  rewrite !bind_assoc.
  rewrite (bind_ok _ _ _ _ _ (load_Folder_at _ _ _ Hf)).
  fold (folder_header fname fdesc).
  cbn [Folder_name Folder_description features foldM render].
  rewrite !bind_assoc. unfold Placemark_render. rewrite !bind_assoc.
  rewrite (bind_ok _ _ _ _ _ (load_Placemark_at _ _ _ Hpm)).
  cbn [Placemark_name Placemark_description geometry style String.length Nat.ltb Nat.leb].
  rewrite !bind_assoc. unfold bind at 1.
  destruct (Point_render g h) as [t h1| | |] eqn:E; try reflexivity.
  pose proof (Point_render_pure _ _ _ _ E) as ->.
  unfold bind, ret, folder_header. f_equal.
  repeat rewrite string_app_assoc. reflexivity.
Qed.

Lemma build_around_geometry (n : nat) (h : heap) (k f : loc) (g : pointer)
    (fname fdesc pname pdesc : string) :
  h !! k = Some (OKML {| folders := [] |}) ->
  h !! f = Some (OFolder {| Folder_name := fname; Folder_description := fdesc;
                            features := [] |}) ->
  exists h' pm,
    h !! pm = None /\
    (forall p, p <> pm -> p <> f -> p <> k -> h' !! p = h !! p) /\
    (pm <- NewPlacemark pname pdesc (Iface TPoint g) ;;
     _ <- Folder_AddFeature (Addr f) (Iface TPlacemark pm) ;;
     _ <- KML_AddFolder (Addr k) (Addr f) ;;
     Render (S (S n)) (Addr k)) h =
    match Point_render g h' with
    | Ok t _ =>
        Ok (kml_header +:+ folder_header fname fdesc +:+
            "<Placemark>" +:+ LF +:+
            "<name>" +:+ pname +:+ "</name>" +:+ LF +:+
            "<description>" +:+ pdesc +:+ "</description>" +:+ LF +:+
            "<visibility>1</visibility>" +:+ LF +:+
            t +:+ "</Placemark>" +:+ LF +:+ "</Folder>" +:+ LF +:+ "</kml>" +:+ LF) h'
    | Panic => Panic
    | Timeout => Timeout
    | Wild => Wild
    end.
Proof.
  intros Hk Hf. unfold NewPlacemark.
  destruct (alloc_fresh
    (OPlacemark {| Placemark_name := pname; Placemark_description := pdesc;
                   geometry := Iface TPoint g; style := EmptyString |}) h)
    as (pm & Hpm & Apm).
  assert (Npk : pm <> k) by (intros ->; rewrite Hk in Hpm; discriminate).
  assert (Npf : pm <> f) by (intros ->; rewrite Hf in Hpm; discriminate).
  assert (Nfk : f <> k) by (intros ->; rewrite Hk in Hf; discriminate).
  set (h1 := <[pm := OPlacemark {| Placemark_name := pname; Placemark_description := pdesc;
                                   geometry := Iface TPoint g; style := EmptyString |}]> h)
    in *.
  set (h2 := <[f := OFolder {| Folder_name := fname; Folder_description := fdesc;
                               features := [Iface TPlacemark (Addr pm)] |}]> h1).
  set (h3 := <[k := OKML {| folders := [Addr f] |}]> h2).
  exists h3, pm. split; [exact Hpm|]. split.
  - intros p N1 N2 N3. unfold h3, h2, h1.
    now rewrite !lookup_insert_ne by congruence.
  - assert (H1f : h1 !! f = Some (OFolder {| Folder_name := fname;
                    Folder_description := fdesc; features := [] |}))
      by (unfold h1; now rewrite lookup_insert_ne).
    assert (H2k : h2 !! k = Some (OKML {| folders := [] |}))
      by (unfold h2, h1; now rewrite !lookup_insert_ne by congruence).
    rewrite (bind_ok _ _ _ _ _ Apm).
    rewrite (bind_ok _ _ _ _ _ (AddFeature_at h1 f _ TPlacemark (Addr pm) H1f)).
    cbn [Folder_name Folder_description features app]. fold h2.
    rewrite (bind_ok _ _ _ _ _ (AddFolder_at h2 k f _ H2k)).
    cbn [folders app]. fold h3.
    apply Render_one_placemark with (f := f) (pm := pm).
    + unfold h3. apply lookup_insert_eq.
    + unfold h3, h2. rewrite lookup_insert_ne by congruence. apply lookup_insert_eq.
    + unfold h3, h2, h1. rewrite !lookup_insert_ne by congruence. apply lookup_insert_eq.
Qed.

(** X14. The caller that builds a Document with one Folder holding one
    Placemark on a Point and renders it gets, for a valid latitude and
    longitude, the nested text Document, Folder, Placemark, Point with the
    coordinates in the order longitude, latitude, altitude and no style
    line.  When the coordinates are not valid and the caller drops the
    error, the nil Point is stored as the geometry and the rendering
    panics. *)
Theorem document_with_point_renders (fname fdesc pname pdesc : string)
    (lat lon alt : float64) (n : nat) (h : heap) :
  (valid_lat lat && valid_lon lon = true ->
   exists h',
     document_with_point fname fdesc pname pdesc lat lon alt (S (S n)) h =
       Ok (document_with_point_text fname fdesc pname pdesc lat lon alt) h') /\
  (valid_lat lat && valid_lon lon = false ->
   document_with_point fname fdesc pname pdesc lat lon alt (S (S n)) h = Panic).
Proof.
  unfold document_with_point, NewKML, NewFolder.
  destruct (alloc_fresh (OKML {| folders := [] |}) h) as (k & Hk & Ak).
  rewrite (bind_ok _ _ _ _ _ Ak).
  set (h1 := <[k := OKML {| folders := [] |}]> h).
  destruct (alloc_fresh (OFolder {| Folder_name := fname; Folder_description := fdesc;
                                    features := [] |}) h1) as (f & Hf & Af).
  rewrite (bind_ok _ _ _ _ _ Af).
  set (h2 := <[f := OFolder {| Folder_name := fname; Folder_description := fdesc;
                               features := [] |}]> h1).
  assert (Nfk : f <> k)
    by (intros ->; unfold h1 in Hf; now rewrite lookup_insert_eq in Hf).
  assert (H2k : h2 !! k = Some (OKML {| folders := [] |}))
    by (unfold h2, h1; rewrite lookup_insert_ne by congruence; apply lookup_insert_eq).
  assert (H2f : h2 !! f = Some (OFolder {| Folder_name := fname;
                  Folder_description := fdesc; features := [] |}))
    by (unfold h2; apply lookup_insert_eq).
  split; intros Hv.
  - apply andb_prop in Hv as [Hlat Hlon].
    assert (E : NewPoint lat lon alt h2 =
                Ok (Addr (fresh (dom h2)), None)
                   (<[fresh (dom h2) := OPoint {| Lat := lat; Lon := lon;
                        Alt := if finite alt then alt else F0 |}]> h2)).
    { rewrite NewPoint_cases. unfold valid_lat in Hlat. unfold valid_lon in Hlon.
      apply andb_prop in Hlat as [-> ->]. apply andb_prop in Hlon as [-> ->].
      cbn [negb]. unfold finite. now destruct (IsNaN alt || IsInf alt). }
    rewrite (bind_ok _ _ _ _ _ E). cbn [fst].
    set (p := fresh (dom h2)) in *.
    assert (Hp : h2 !! p = None) by (apply not_elem_of_dom, is_fresh).
    set (h3 := <[p := OPoint {| Lat := lat; Lon := lon;
                                Alt := if finite alt then alt else F0 |}]> h2).
    assert (Npk : p <> k) by (intros Epk; rewrite Epk, H2k in Hp; discriminate).
    assert (Npf : p <> f) by (intros Epf; rewrite Epf, H2f in Hp; discriminate).
    destruct (build_around_geometry n h3 k f (Addr p) fname fdesc pname pdesc)
      as (h' & pm & Hpm & Hsame & ->).
    + unfold h3. now rewrite lookup_insert_ne.
    + unfold h3. now rewrite lookup_insert_ne.
    + assert (Npm : p <> pm)
        by (intros Epm; rewrite <- Epm in Hpm; unfold h3 in Hpm;
            now rewrite lookup_insert_eq in Hpm).
      unfold Point_render.
      rewrite (bind_ok _ _ _ _ _ (load_Point_at h' p _
        ltac:(rewrite (Hsame p Npm Npf Npk); unfold h3; apply lookup_insert_eq))).
      unfold ret. cbn [Lat Lon Alt]. exists h'. f_equal.
      unfold document_with_point_text. repeat rewrite string_app_assoc. reflexivity.
  - assert (E : exists msg, NewPoint lat lon alt h2 = Ok (NilPtr, Some msg) h2).
    { rewrite NewPoint_cases. unfold valid_lat, valid_lon in Hv.
      destruct (finite lat); [|eexists; reflexivity].
      destruct (in_range (neg F90) F90 lat); [|eexists; reflexivity].
      destruct (finite lon); [|eexists; reflexivity].
      destruct (in_range (neg F180) F180 lon); [discriminate Hv|eexists; reflexivity]. }
    destruct E as (msg & E). rewrite (bind_ok _ _ _ _ _ E). cbn [fst].
    destruct (build_around_geometry n h2 k f NilPtr fname fdesc pname pdesc H2k H2f)
      as (h' & pm & _ & _ & ->).
    reflexivity.
Qed.

Lemma document_with_point_renders_witness :
  (exists h',
     document_with_point "Places" "All places" "Home" "Where we live" F10 F20 F0 2 ∅ =
       Ok example_text h') /\
  document_with_point "Places" "All places" "Home" "Where we live" F91 F20 F0 2 ∅ = Panic.
Proof.
  split.
  - apply (proj1 (document_with_point_renders "Places" "All places" "Home"
                    "Where we live" F10 F20 F0 0 ∅)). reflexivity.
  - apply (proj2 (document_with_point_renders "Places" "All places" "Home"
                    "Where we live" F91 F20 F0 0 ∅)). reflexivity.
Defined.

(** ** A nil pointer behind the interface *)

Lemma foldM_app {A} (f : string -> A -> M string) (l1 l2 : list A) :
  forall b h, foldM f (l1 ++ l2) b h = bind (foldM f l1 b) (fun b' => foldM f l2 b') h.
Proof.
  induction l1 as [|a l1 IH]; intros b h; [reflexivity|].
  cbn [app foldM]. unfold bind.
  destruct (f b a h) as [b1 h1| | |]; try reflexivity. rewrite IH. reflexivity.
Qed.

Lemma render_typed_nil (n : nat) (t : dyntype) (h : heap) :
  render (S (S n)) (Iface t NilPtr) h = Panic.
Proof. destruct t; reflexivity. Qed.

(** X15. A nil pointer of a concrete type is not the nil interface, so the
    test of [AddFeature] lets it through.  A Folder that holds such a
    feature panics when rendered, once the features before it have
    rendered; so does a new Folder after [AddFeature] of a nil pointer of
    any of the four types. *)
Theorem typed_nil_feature_panics (h : heap) (n : nat) (t : dyntype) :
  (forall l F xs ys,
     h !! l = Some (OFolder F) ->
     features F = xs ++ Iface t NilPtr :: ys ->
     Forall (tree h (S (S n))) xs ->
     render (S (S (S n))) (Iface TFolder (Addr l)) h = Panic) /\
  (forall name desc,
     (f <- NewFolder name desc ;;
      _ <- Folder_AddFeature f (Iface t NilPtr) ;;
      render (S (S (S n))) (Iface TFolder f)) h = Panic).
Proof.
  split.
  - intros l F xs ys Hl Hfeat Hxs.
    change (render (S (S (S n))) (Iface TFolder (Addr l)) h)
      with (Folder_render (render (S (S n))) (Addr l) h).
    unfold Folder_render.
    rewrite (bind_ok _ _ _ _ _ (load_Folder_at _ _ _ Hl)). rewrite Hfeat.
    unfold bind at 1. rewrite foldM_app.
    match goal with |- context [foldM ?f xs ?b0] =>
      destruct (foldM_total f xs h) with (b := b0) as (r & Hr) end.
    + intros a Hin b. rewrite Forall_forall in Hxs.
      destruct (render_total h _ _ (Hxs a ltac:(now apply list_elem_of_In))) as (s & Hs).
      exists (b +:+ s). now rewrite (bind_ok _ _ _ _ _ Hs).
    + rewrite (bind_ok _ _ _ _ _ Hr). cbn [foldM]. unfold bind at 1 2.
      now rewrite render_typed_nil.
  - intros name desc. unfold NewFolder.
    destruct (alloc_fresh (OFolder {| Folder_name := name; Folder_description := desc;
                                      features := [] |}) h) as (l & _ & Ha).
    rewrite (bind_ok _ _ _ _ _ Ha).
    rewrite (bind_ok _ _ _ _ _
      (AddFeature_at _ l _ t NilPtr (lookup_insert_eq _ _ _))).
    cbn [Folder_name Folder_description features app]. rewrite insert_insert_eq.
    match goal with |- render _ _ ?h0 = _ =>
      change (Folder_render (render (S (S n))) (Addr l) h0 = Panic) end.
    unfold Folder_render.
    rewrite (bind_ok _ _ _ _ _ (load_Folder_at _ l _ (lookup_insert_eq _ _ _))).
    cbn [features foldM]. unfold bind at 1 2 3.
    now rewrite render_typed_nil.
Qed.

Lemma typed_nil_feature_panics_witness :
  let F := {| Folder_name := "a"; Folder_description := "b";
              features := [Iface TPoint (Addr 3%positive); Iface TPlacemark NilPtr] |} in
  let h : heap := <[7%positive := OFolder F]> example_heap in
  render 3 (Iface TFolder (Addr 7%positive)) h = Panic.
Proof.
  intros F h.
  apply (proj1 (typed_nil_feature_panics h 0 TPlacemark) 7%positive F
           [Iface TPoint (Addr 3%positive)] []).
  - reflexivity.
  - reflexivity.
  - constructor; [|constructor].
    apply (tree_Point h 1 3%positive {| Lat := F10; Lon := F20; Alt := F0 |}).
    reflexivity.
Defined.

(** ** The properties above on the example *)

Lemma render_returns_iff_tree_witness :
  tree example_heap 3 (Iface TFolder (Addr 2%positive)).
Proof.
  apply (proj1 (render_returns_iff_tree example_heap 3 (Iface TFolder (Addr 2%positive)))).
  eexists. vm_compute. reflexivity.
Defined.

Lemma NewPoint_result_witness :
  exists p err h',
    NewPoint F91 F0 F0 ∅ = Ok (p, err) h' /\ p = NilPtr /\ err <> None /\ h' = ∅.
Proof.
  destruct (NewPoint_result F91 F0 F0 ∅) as (p & err & h' & E & Hiff & Hnil & _).
  exists p, err, h'. split; [exact E|].
  assert (Hp : p = NilPtr).
  { assert (E0 : NewPoint F91 F0 F0 ∅ = Ok (NilPtr, Some "Invalid Lat: 91.000000") ∅)
      by reflexivity.
    rewrite E0 in E. now injection E as <- _ _. }
  split; [exact Hp|]. split; [exact (proj1 Hiff Hp)|exact (Hnil Hp)].
Defined.

(** ** Placemark: styles and text *)

(** C7. A Placemark made by [NewPlacemark] and then given style names by
    calls of [SetStyle] holds the trimmed name of the last call whose name is
    not blank, and the empty name when there is none (a blank name changes
    nothing).  Its rendering returns exactly when its geometry renders, in
    particular whenever the geometry rendered before the Placemark was made,
    and is then the name, the description, the visibility 1, then the line
    [<styleUrl>#name</styleUrl>] exactly when that style name is not empty,
    then the text rendered by the geometry, then the closing tag. *)
Theorem Placemark_render_spec (name desc : string) (geom : renderable)
    (names : list string) (h : heap) :
  exists l,
    h !! l = None /\
    let st := last_style names EmptyString in
    let h1 := <[l := OPlacemark {| Placemark_name := name;
                                   Placemark_description := desc;
                                   geometry := geom; style := st |}]> h in
    let text := fun g : string =>
      "<Placemark>" +:+ LF +:+
      "<name>" +:+ name +:+ "</name>" +:+ LF +:+
      "<description>" +:+ desc +:+ "</description>" +:+ LF +:+
      "<visibility>1</visibility>" +:+ LF +:+
      styleUrl_line st +:+
      g +:+
      "</Placemark>" +:+ LF in
    (pm <- NewPlacemark name desc geom ;; _ <- SetStyles pm names ;; ret pm) h
      = Ok (Addr l) h1 /\
    (st = EmptyString <-> forallb blank names = true) /\
    (st = EmptyString -> styleUrl_line st = EmptyString) /\
    (st <> EmptyString ->
       styleUrl_line st = "<styleUrl>#" +:+ st +:+ "</styleUrl>" +:+ LF) /\
    (forall fuel g,
       render fuel geom h1 = Ok g h1 ->
       Placemark_render (render fuel) (Addr l) h1 = Ok (text g) h1) /\
    (forall fuel g,
       render fuel geom h = Ok g h ->
       Placemark_render (render fuel) (Addr l) h1 = Ok (text g) h1) /\
    (forall fuel s h',
       Placemark_render (render fuel) (Addr l) h1 = Ok s h' ->
       h' = h1 /\ exists g, render fuel geom h1 = Ok g h1 /\ s = text g).
Proof.
  unfold NewPlacemark.
  destruct (alloc_fresh
    (OPlacemark {| Placemark_name := name; Placemark_description := desc;
                   geometry := geom; style := EmptyString |}) h) as (l & Hl & Ha).
  exists l. split; [exact Hl|]. cbv zeta.
  set (st := last_style names EmptyString).
  set (h1 := <[l := OPlacemark {| Placemark_name := name; Placemark_description := desc;
                                  geometry := geom; style := st |}]> h).
  assert (Hh1 : h1 !! l = Some (OPlacemark
            {| Placemark_name := name; Placemark_description := desc;
               geometry := geom; style := st |})) by apply lookup_insert_eq.
  assert (Hsub : h ⊆ h1) by (now apply insert_subseteq).
  assert (Run : forall fuel,
    Placemark_render (render fuel) (Addr l) h1 =
    bind (render fuel geom)
         (fun g => ret ("<Placemark>" +:+ LF +:+
                        "<name>" +:+ name +:+ "</name>" +:+ LF +:+
                        "<description>" +:+ desc +:+ "</description>" +:+ LF +:+
                        "<visibility>1</visibility>" +:+ LF +:+
                        styleUrl_line st +:+ g +:+ "</Placemark>" +:+ LF)) h1).
  { intros fuel. unfold Placemark_render.
    rewrite (bind_ok _ _ _ _ _ (load_Placemark_at _ l _ Hh1)).
    cbn [Placemark_name Placemark_description geometry style].
    unfold bind. destruct (render fuel geom h1) as [g h2| | |]; try reflexivity.
    unfold ret. f_equal. rewrite nonempty_test.
    destruct st; cbn [styleUrl_line]; repeat rewrite string_app_assoc; reflexivity. }
  split; [|split; [|split; [|split; [|split; [|split]]]]].
  - rewrite (bind_ok _ _ _ _ _ Ha).
    rewrite (bind_ok _ _ _ _ _ (SetStyles_spec names _ l _ (lookup_insert_eq _ _ _))).
    cbn [Placemark_name Placemark_description geometry style].
    unfold ret, h1, st. now rewrite insert_insert_eq.
  - unfold st. rewrite last_style_empty. tauto.
  - now intros ->.
  - destruct st; [congruence|reflexivity].
  - intros fuel g Hg. rewrite Run. now rewrite (bind_ok _ _ _ _ _ Hg).
  - intros fuel g Hg. rewrite Run.
    pose proof (proj2 (render_frame_aux h h1 fuel Hsub _ _ _ Hg)) as Hg1.
    now rewrite (bind_ok _ _ _ _ _ Hg1).
  - intros fuel s h' H. rewrite Run in H.
    apply bind_inv in H as (g & h2 & Hg & Hr).
    pose proof (render_heap fuel _ _ _ _ Hg) as ->.
    injection Hr as <- <-. split; [reflexivity|]. now exists g.
Qed.

Lemma Placemark_render_spec_witness :
  exists l,
    example_heap !! l = None /\
    let h1 : heap := <[l := OPlacemark {| Placemark_name := "Work";
                                          Placemark_description := "d";
                                          geometry := Iface TPoint (Addr 3%positive);
                                          style := "red" |}]> example_heap in
    (pm <- NewPlacemark "Work" "d" (Iface TPoint (Addr 3%positive)) ;;
     _ <- SetStyles pm ["  "; " red "; EmptyString] ;; ret pm) example_heap
      = Ok (Addr l) h1 /\
    Placemark_render (render 1) (Addr l) h1 =
      Ok ("<Placemark>" +:+ LF +:+
          "<name>Work</name>" +:+ LF +:+
          "<description>d</description>" +:+ LF +:+
          "<visibility>1</visibility>" +:+ LF +:+
          "<styleUrl>#red</styleUrl>" +:+ LF +:+
          "<Point>" +:+ LF +:+
          "<extrude>0</extrude>" +:+ LF +:+
          "<altitudeMode>clampToGround</altitudeMode>" +:+ LF +:+
          "<coordinates>20.000000,10.000000,0.000000</coordinates>" +:+ LF +:+
          "</Point>" +:+ LF +:+
          "</Placemark>" +:+ LF) h1.
Proof.
  destruct (Placemark_render_spec "Work" "d" (Iface TPoint (Addr 3%positive))
              ["  "; " red "; EmptyString] example_heap)
    as (l & Hl & Hrun & _ & _ & _ & _ & Hrender & _).
  exists l. split; [exact Hl|]. split; [exact Hrun|].
  refine (Hrender 1%nat
            ("<Point>" +:+ LF +:+
             "<extrude>0</extrude>" +:+ LF +:+
             "<altitudeMode>clampToGround</altitudeMode>" +:+ LF +:+
             "<coordinates>20.000000,10.000000,0.000000</coordinates>" +:+ LF +:+
             "</Point>" +:+ LF) _).
  vm_compute. reflexivity.
Defined.

(** ** AddFeature and a nil pointer *)

(** C8 (the code differs). [AddFolder] ignores the nil folder and
    [AddFeature] ignores the nil interface, but [AddFeature] does not ignore
    a nil feature that is a nil pointer of one of the four types: its test
    compares the interface value with nil, which such a pointer is not.  On
    a new Folder, [AddFeature] of a nil [*Folder], [*Style], [*Point] or
    [*Placemark] appends it, so that the Folder holds one feature, a nil
    pointer, and panics when rendered. *)
Theorem AddFeature_nil_pointer_appended (name desc : string) (t : dyntype)
    (n : nat) (h : heap) :
  (exists k,
     (k <- NewKML ;; _ <- KML_AddFolder k NilPtr ;; ret k) h =
       Ok (Addr k) (<[k := OKML {| folders := [] |}]> h)) /\
  (exists f,
     (f <- NewFolder name desc ;; _ <- Folder_AddFeature f NilIface ;; ret f) h =
       Ok (Addr f) (<[f := OFolder {| Folder_name := name; Folder_description := desc;
                                      features := [] |}]> h)) /\
  (exists f,
     (f <- NewFolder name desc ;; _ <- Folder_AddFeature f (Iface t NilPtr) ;; ret f) h =
       Ok (Addr f) (<[f := OFolder {| Folder_name := name; Folder_description := desc;
                                      features := [Iface t NilPtr] |}]> h) /\
     render (S (S n)) (Iface TFolder (Addr f))
       (<[f := OFolder {| Folder_name := name; Folder_description := desc;
                          features := [Iface t NilPtr] |}]> h) = Panic).
Proof.
  split; [|split].
  - unfold NewKML.
    destruct (alloc_fresh (OKML {| folders := [] |}) h) as (k & _ & Ha).
    exists k. now rewrite (bind_ok _ _ _ _ _ Ha).
  - unfold NewFolder.
    destruct (alloc_fresh (OFolder {| Folder_name := name; Folder_description := desc;
                                      features := [] |}) h) as (f & _ & Ha).
    exists f. now rewrite (bind_ok _ _ _ _ _ Ha).
  - unfold NewFolder.
    destruct (alloc_fresh (OFolder {| Folder_name := name; Folder_description := desc;
                                      features := [] |}) h) as (f & _ & Ha).
    exists f. split.
    + rewrite (bind_ok _ _ _ _ _ Ha).
      rewrite (bind_ok _ _ _ _ _
        (AddFeature_at _ f _ t NilPtr (lookup_insert_eq _ _ _))).
      cbn [Folder_name Folder_description features app]. unfold ret.
      now rewrite insert_insert_eq.
    + match goal with |- render _ _ ?h0 = _ =>
        change (Folder_render (render (S n)) (Addr f) h0 = Panic) end.
      unfold Folder_render.
      rewrite (bind_ok _ _ _ _ _ (load_Folder_at _ f _ (lookup_insert_eq _ _ _))).
      cbn [features foldM]. unfold bind at 1 2 3.
      destruct t; reflexivity.
Qed.
